(** * Particle morphing: shape generator and per-frame animation step

    A shallow embedding of [generatePositions] (src/utils/math.ts) and of the
    [useFrame] callback of the [ParticleSystem] component, with the initial
    state of [App] (src/App.tsx).

    Numbers.  The source computes with JavaScript numbers and stores them in
    [Float32Array]s.  The embedding interprets every arithmetic expression of
    the source over the real numbers [R]: [+], [-], [*], [/], [Math.sin],
    [Math.cos], [Math.sqrt], [Math.acos] are the real operations, and a store
    into a typed array keeps the value as it is.  Rounding is not modelled;
    the statements below are therefore the exact counterparts of what the
    source computes up to floating-point tolerance.  The one place where
    that reading stops describing the program is the easing repeated over
    many frames; there the statement is evaluated in binary64 with a
    binary32 store, in [Stored].

    Arrays.  A [Float32Array] is a [list R] of fixed length.  A write
    [a[k] = v] is stdpp's [<[k:=v]> a], which like a typed array ignores a
    write past the end.  A read [a[k]] is [a !!! k]; past the end JavaScript
    yields [undefined] where [!!!] yields [0], so every statement about reads
    carries the length of the buffers ([count * 3], as the component
    allocates them), under which no read is out of range.

    Randomness.  [Math.random()] is a stream [random : nat -> R] together
    with the number of values drawn so far, threaded through the generator by
    a small state monad. *)

From Stdlib Require Import Reals Lra Lia ZArith String.
From Stdlib Require Strings.Byte Strings.Ascii.
From Stdlib Require Import Floats.SpecFloat.
From stdpp Require Import base list.

#[local] Open Scope R_scope.

#[global] Instance R_inhabited : Inhabited R := populate 0.

(** ** Data model *)

(** [interface GestureState] of the module [types] (its text follows
    [App] in src/App.tsx): [expansion: number], [rotation: number],
    [isDetected: boolean]. *)
Record GestureState := mkGesture {
  expansion : R;
  rotation : R;
  isDetected : bool
}.

(** The three.js [Vector3] held in [Object3D.scale]. *)
Record Vector3 := mkVector3 { v_x : R; v_y : R; v_z : R }.

(** [Vector3.setScalar] assigns the same value to the three components. *)
Definition setScalar (s : R) (_ : Vector3) : Vector3 := mkVector3 s s s.

(** The three.js [Euler] held in [Object3D.rotation]. *)
Record Euler := mkEuler { e_x : R; e_y : R; e_z : R }.

(** The part of the [THREE.Points] object behind [pointsRef.current] that the
    callback reads or writes: the array of the geometry's position attribute,
    the attribute's [needsUpdate] flag, and the object's transform. *)
Record Points := mkPoints {
  position_array : list R;
  position_needsUpdate : bool;
  obj_scale : Vector3;
  obj_rotation : Euler
}.

(** What the callback can reach: the ref (null until the object is mounted),
    the buffer [targetPositions] and the [gesture] prop. The position array
    and [targetPositions] are two distinct allocations of the component. *)
Record Scene := mkScene {
  pointsRef : option Points;
  targetPositions : list R;
  gesture : GestureState
}.

(** ** The animation step *)

Module ParticleSystem.

(** [const count = 15000] in the component; the loop is translated with the
    number of points as an argument [n], and [callback] below is the
    component's instance. *)
Definition count : nat := 15000.

(** One coordinate of "Lerp current to target": the new value of
    [positions[k]] after [positions[k] += (t - positions[k]) * 0.1]. *)
Definition lerp (cur t : R) : R := cur + (t - cur) * 0.1.

(** Lines 47-54 of the loop body for point [i]. *)
Definition ease (target : list R) (positions : list R) (i : nat) : list R :=
  let i3 := (i * 3)%nat in
  let tx := target !!! i3 in
  let ty := target !!! (i3 + 1)%nat in
  let tz := target !!! (i3 + 2)%nat in
  let positions := <[i3 := lerp (positions !!! i3) tx]> positions in
  let positions :=
    <[(i3 + 1)%nat := lerp (positions !!! (i3 + 1)%nat) ty]> positions in
  let positions :=
    <[(i3 + 2)%nat := lerp (positions !!! (i3 + 2)%nat) tz]> positions in
  positions.

(** Lines 57-58: "Small jitter/noise". *)
Definition jitter (time : R) (positions : list R) (i : nat) : list R :=
  let i3 := (i * 3)%nat in
  let positions :=
    <[i3 := positions !!! i3 + sin (time + INR i) * 0.02]> positions in
  let positions :=
    <[(i3 + 1)%nat :=
        positions !!! (i3 + 1)%nat + cos (time + INR i) * 0.02]> positions in
  positions.

(** The whole body of the [for] loop. *)
Definition morph_point (target : list R) (time : R)
    (positions : list R) (i : nat) : list R :=
  jitter time (ease target positions i) i.

(** [for (let i = 0; i < count; i++) { ... }] *)
Definition morph (n : nat) (target : list R) (time : R)
    (positions : list R) : list R :=
  foldl (morph_point target time) positions (seq 0 n).

(** The statements after the loop, on the object behind the ref. *)
Definition transform (g : GestureState) (p : Points) : Points :=
  {| position_array := position_array p;
     position_needsUpdate := true;
     obj_scale := setScalar (1 + expansion g * 2.5) (obj_scale p);
     obj_rotation :=
       {| e_x := e_x (obj_rotation p);
          e_y := e_y (obj_rotation p) + (0.002 + rotation g * 0.05);
          e_z := e_z (obj_rotation p) + 0.001 |} |}.

(** The callback on a mounted object. *)
Definition animate (n : nat) (target : list R) (g : GestureState)
    (time : R) (p : Points) : Points :=
  transform g
    {| position_array := morph n target time (position_array p);
       position_needsUpdate := position_needsUpdate p;
       obj_scale := obj_scale p;
       obj_rotation := obj_rotation p |}.

(** The callback passed to [useFrame]: returns [undefined], written [tt],
    and the scene it leaves.  [if (!pointsRef.current) return;] is the
    [None] case. *)
Definition useFrame (n : nat) (time : R) (s : Scene) : unit * Scene :=
  match pointsRef s with
  | None => (tt, s)
  | Some p =>
      (tt, {| pointsRef :=
                Some (animate n (targetPositions s) (gesture s) time p);
              targetPositions := targetPositions s;
              gesture := gesture s |})
  end.

(** The callback as the component registers it. *)
Definition callback (time : R) (s : Scene) : unit * Scene :=
  useFrame count time s.

(** Euclidean distance between point [i] of two buffers. *)
Definition dist (a b : list R) (i : nat) : R :=
  sqrt ((b !!! (i * 3)%nat - a !!! (i * 3)%nat) ^ 2
        + (b !!! (i * 3 + 1)%nat - a !!! (i * 3 + 1)%nat) ^ 2
        + (b !!! (i * 3 + 2)%nat - a !!! (i * 3 + 2)%nat) ^ 2).

End ParticleSystem.

(** ** The shape generator *)

(** The random source: a computation that may call [Math.random()] maps the
    number of values drawn so far to its result and the new number. *)
Module Rand.

Definition t (A : Type) : Type := nat -> A * nat.

Definition ret {A} (a : A) : t A := fun n => (a, n).

Definition bind {A B} (m : t A) (k : A -> t B) : t B :=
  fun n => let (a, n') := m n in k a n'.

End Rand.

Notation "x <- m ;; k" := (Rand.bind m (fun x => k))
  (at level 100, m at next level, right associativity).

(** Which half of the SATURN case point [i] falls in. *)
Inductive SaturnBranch := Sphere | Ring.

(** Which third of the BUDDHA case point [i] falls in. *)
Inductive BuddhaBranch := HeadTorso | CrossedLegs | Aura.

Section Generator.

(** [random k] is the value of the [k]-th call of [Math.random()]. *)
Variable random : nat -> R.

Definition Math_random : Rand.t R := fun n => (random n, S n).

(** [if (i < count * 0.6) ... else ...] *)
Definition saturn_branch (count i : nat) : SaturnBranch :=
  if Rlt_dec (INR i) (INR count * 0.6) then Sphere else Ring.

(** [const segment = i / count;] and the chain
    [if (segment < 0.3) ... else if (segment < 0.7) ... else ...] *)
Definition segment (count i : nat) : R := INR i / INR count.

Definition buddha_branch (count i : nat) : BuddhaBranch :=
  if Rlt_dec (segment count i) 0.3 then HeadTorso
  else if Rlt_dec (segment count i) 0.7 then CrossedLegs
  else Aura.

(** FLOWER: [const radius = 15 * Math.sqrt(i / count);] and
    [const angle = i * 137.5 * (Math.PI / 180);] *)
Definition flower_radius (count i : nat) : R := 15 * sqrt (INR i / INR count).
Definition flower_angle (i : nat) : R := INR i * 137.5 * (PI / 180).

(** [const phi] and [const theta], computed for every point. *)
Definition phi (count i : nat) : R := acos (-1 + (2 * INR i) / INR count).
Definition theta (count i : nat) : R := sqrt (INR count * PI) * phi count i.

(** The body of the loop up to the stores: the coordinates [(x, y, z)] of
    point [i].  [TemplateType] is a union of five string literals, checked
    at compile time only; [type] is the string the [switch] compares at run
    time.  The [switch]
    has no default case, so any other string leaves [x = 0, y = 0, z = 0].
    The constant [t] of the source is never used and is left out.
    [Math.pow(s, 3)] is [s ^ 3], and [Math.pow(u, 0.5)] with [u >= 0] is
    [sqrt u]. *)
Definition point (type : string) (count i : nat) : Rand.t (R * R * R) :=
  let phi := phi count i in
  let theta := theta count i in
  if String.eqb type "HEART" then
    u <- Math_random ;;
    let angle := u * PI * 2 in
    let scale := 0.5 in
    let x := 16 * sin angle ^ 3 in
    let y := 13 * cos angle - 5 * cos (2 * angle) - 2 * cos (3 * angle)
             - cos (4 * angle) in
    v <- Math_random ;;
    let z := (v - 0.5) * 5 in
    Rand.ret (x * scale, y * scale, z)
  else if String.eqb type "FLOWER" then
    let radius := flower_radius count i in
    let angle := flower_angle i in
    Rand.ret (radius * cos angle, radius * sin angle, sin (radius * 0.5) * 2)
  else if String.eqb type "SATURN" then
    match saturn_branch count i with
    | Sphere =>
        let r := 10 in
        Rand.ret (r * sin phi * cos theta, r * sin phi * sin theta,
                  r * cos phi)
    | Ring =>
        let inner := 14 in
        let outer := 22 in
        u <- Math_random ;;
        let r := inner + (outer - inner) * u in
        v <- Math_random ;;
        let angle := v * PI * 2 in
        w <- Math_random ;;
        Rand.ret (r * cos angle, (w - 0.5) * 0.5, r * sin angle)
    end
  else if String.eqb type "BUDDHA" then
    let segment := segment count i in
    match buddha_branch count i with
    | HeadTorso =>
        u <- Math_random ;;
        v <- Math_random ;;
        Rand.ret ((u - 0.5) * 6, segment * 20 - 5, (v - 0.5) * 4)
    | CrossedLegs =>
        let legT := (segment - 0.3) * 10 in
        u <- Math_random ;;
        Rand.ret (sin legT * 12, -10 + u * 2, cos legT * 8)
    | Aura =>
        u <- Math_random ;;
        let r := 15 + u * 5 in
        v <- Math_random ;;
        let a := v * PI in
        Rand.ret (r * cos a, r * sin a - 5, -5)
    end
  else if String.eqb type "FIREWORKS" then
    u <- Math_random ;;
    let r := sqrt u * 20 in
    Rand.ret (r * sin phi * cos theta, r * sin phi * sin theta, r * cos phi)
  else
    Rand.ret (0, 0, 0).

(** The three stores at the end of the loop body. *)
Definition store_point (positions : list R) (i : nat) (p : R * R * R)
    : list R :=
  let '(x, y, z) := p in
  <[(i * 3 + 2)%nat := z]>
    (<[(i * 3 + 1)%nat := y]> (<[(i * 3)%nat := x]> positions)).

(** One iteration, on the pair of the array and the number of draws. *)
Definition generate_step (type : string) (count : nat)
    (st : list R * nat) (i : nat) : list R * nat :=
  let (p, n') := point type count i (snd st) in
  (store_point (fst st) i p, n').

(** [generatePositions(type, count)]: a zero-filled array of [count * 3]
    numbers, filled by the loop, with no value drawn at the start. *)
Definition generatePositions (type : string) (count : nat) : list R :=
  fst (foldl (generate_step type count)
             (replicate (count * 3) 0, 0%nat) (seq 0 count)).

End Generator.

(** ** The application's initial state *)

Module App.

(** The [useState] cells of [App] that reach the particle system. *)
Record State := mkState {
  template : string;
  color : string;
  app_gesture : GestureState
}.

(** The initial values given to [useState]. *)
Definition initial : State :=
  {| template := "BUDDHA";
     color := "#6366f1";
     app_gesture := mkGesture 0 0 false |}.

(** The callback handed to the gesture service: [setGesture(state)]. *)
Definition setGesture (g : GestureState) (s : State) : State :=
  {| template := template s; color := color s; app_gesture := g |}.

(** What happens to the scene between two renders: a frame is drawn, or a
    gesture report arrives and the component is rendered with the new
    [gesture] prop. *)
Inductive Event :=
| Frame (time : R)
| GestureReport (g : GestureState).

Definition handle (n : nat) (s : Scene) (e : Event) : Scene :=
  match e with
  | Frame time => snd (ParticleSystem.useFrame n time s)
  | GestureReport g =>
      {| pointsRef := pointsRef s;
         targetPositions := targetPositions s;
         gesture := g |}
  end.

Definition run (n : nat) (s : Scene) (es : list Event) : Scene :=
  foldl (handle n) s es.

(** The scene right after the first render and mount: the position array is
    [initialPositions], a zero-filled array; a fresh three.js object has
    scale [(1, 1, 1)] and rotation [(0, 0, 0)]; the [gesture] prop is the
    application's state. *)
Definition mounted (n : nat) (target : list R) (a : State) : Scene :=
  {| pointsRef :=
       Some {| position_array := replicate (n * 3) 0;
               position_needsUpdate := false;
               obj_scale := mkVector3 1 1 1;
               obj_rotation := mkEuler 0 0 0 |};
     targetPositions := target;
     gesture := app_gesture a |}.

End App.

(** ** The easing in the arithmetic of the buffer *)

(** The statement [positions[k] += (t - positions[k]) * 0.1] as JavaScript
    evaluates it on a [Float32Array]: the two elements read are binary32
    values, the subtraction, the multiplication and the addition are
    binary64 operations rounded to nearest even, and the store rounds the
    sum to binary32.  Numbers are the [spec_float] of the Standard Library,
    whose operations compute on integers. *)
Module Stored.

Definition sub64 : spec_float -> spec_float -> spec_float := SFsub 53 1024.
Definition mul64 : spec_float -> spec_float -> spec_float := SFmul 53 1024.
Definition add64 : spec_float -> spec_float -> spec_float := SFadd 53 1024.

(** A store into a [Float32Array]: the nearest binary32 number. *)
Definition fround (x : spec_float) : spec_float :=
  match x with
  | S754_finite s m e => binary_normalize 24 128 (cond_Zopp s (Zpos m)) e s
  | _ => x
  end.

(** The literal [0.1]: the binary64 number nearest to one tenth,
    [7205759403792794 * 2^-56]. *)
Definition tenth : spec_float := S754_finite false 7205759403792794 (-56).

Definition lerp (cur t : spec_float) : spec_float :=
  fround (add64 cur (mul64 (sub64 t cur) tenth)).

(** The z coordinate of a point, which receives no jitter, after [k]
    frames with target coordinate [t]. *)
Definition frames (k : nat) (t cur : spec_float) : spec_float :=
  Nat.iter k (fun x => lerp x t) cur.

(** The real number a finite [spec_float] stands for. *)
Definition value (x : spec_float) : R :=
  match x with
  | S754_finite s m e => IZR (cond_Zopp s (Zpos m)) * powerRZ 2 e
  | _ => 0
  end.

End Stored.

(** ** Derived notions used by the statements *)

(** The scene of the scenario: one point at the origin, target
    [(10, 0, 0)], neutral gesture. *)
Definition scenario_scene : Scene :=
  {| pointsRef :=
       Some {| position_array := [0; 0; 0];
               position_needsUpdate := false;
               obj_scale := mkVector3 1 1 1;
               obj_rotation := mkEuler 0 0 0 |};
     targetPositions := [10; 0; 0];
     gesture := mkGesture 0 0 false |}.

#[global] Instance SaturnBranch_eq_dec : EqDecision SaturnBranch.
Proof. solve_decision. Defined.

#[global] Instance BuddhaBranch_eq_dec : EqDecision BuddhaBranch.
Proof. solve_decision. Defined.

(** The indices of [0 .. count-1] that the SATURN case, resp. the BUDDHA
    case, routes to branch [b]. *)
Definition saturn_routed (count : nat) (b : SaturnBranch) : list nat :=
  filter (fun i => saturn_branch count i = b) (seq 0 count).

Definition buddha_routed (count : nat) (b : BuddhaBranch) : list nat :=
  filter (fun i => buddha_branch count i = b) (seq 0 count).

(** [floor r] as an integer. *)
Definition floor (r : R) : Z := Int_part r.

(** The number of calls of [Math.random()] made by
    [generatePositions(type, count)]. *)
Definition draws (random : nat -> R) (type : string) (count : nat) : nat :=
  snd (foldl (generate_step random type count)
             (replicate (count * 3) 0, 0%nat) (seq 0 count)).

(** ** The component between frames *)

Module Component.

(** [TypedArray.prototype.set(source)]: copies [source] over the start of
    the target and throws a [RangeError], written [None], when [source] is
    the longer one. *)
Definition typed_array_set (target source : list R) : option (list R) :=
  if decide (length source <= length target)%nat
  then Some (source ++ drop (length source) target)
  else None.

(** The scene together with the [template] prop of the last render. *)
Record State := mkState {
  scene : Scene;
  template : string
}.

(** What can happen to a mounted component: a frame; a render with a new
    [gesture] prop; a render with a [template] prop, where [random] gives
    the values [Math.random()] returns should the positions be generated
    anew. *)
Inductive Event :=
| Frame (time : R)
| Gesture (g : GestureState)
| Template (type : string) (random : nat -> R).

(** [useMemo(() => generatePositions(template, count), [template])] runs the
    generator only when [template] differs from the last render, and the
    effect [targetPositions.set(currentPositions)] runs only when the memo
    has produced a new array. *)
Definition step (n : nat) (st : State) (e : Event) : option State :=
  match e with
  | Frame time =>
      Some {| scene := App.handle n (scene st) (App.Frame time);
              template := template st |}
  | Gesture g =>
      Some {| scene := App.handle n (scene st) (App.GestureReport g);
              template := template st |}
  | Template type random =>
      if String.eqb type (template st) then Some st
      else
        match typed_array_set (targetPositions (scene st))
                (generatePositions random type n) with
        | Some target =>
            Some {| scene := {| pointsRef := pointsRef (scene st);
                                targetPositions := target;
                                gesture := gesture (scene st) |};
                    template := type |}
        | None => None
        end
  end.

Fixpoint run (n : nat) (st : State) (es : list Event) : option State :=
  match es with
  | [] => Some st
  | e :: es =>
      match step n st e with
      | Some st' => run n st' es
      | None => None
      end
  end.

End Component.

(** ** The application's controls *)

Module UI.

(** [const TEMPLATES]: the [type] and [label] of the five buttons (the icon
    component is left out). *)
Definition TEMPLATES : list (string * string) :=
  [("HEART", "Heart"); ("FLOWER", "Lotus"); ("SATURN", "Saturn");
   ("BUDDHA", "Zen"); ("FIREWORKS", "Spark")]%string.

(** The state of [App]: the three cells of [App.State], [isCameraActive],
    [showControls], and whether [geminiRef.current] holds a service. *)
Record State := mkState {
  app : App.State;
  isCameraActive : bool;
  showControls : bool;
  geminiRef : bool
}.

Definition initial : State :=
  {| app := App.initial;
     isCameraActive := false;
     showControls := true;
     geminiRef := false |}.

(** [videoRef.current]: the [<video ref={videoRef}>] element is rendered
    only under [isCameraActive && ...], so the ref holds an element exactly
    when [isCameraActive] is true. *)
Definition videoRef_current (s : State) : option unit :=
  if isCameraActive s then Some tt else None.

(** [startCamera]: [granted] tells whether [getUserMedia] resolves with a
    stream; when it rejects, the [catch] branch only logs and alerts.  With
    a stream, the service is created and connected only
    [if (videoRef.current)]. *)
Definition startCamera (granted : bool) (s : State) : State :=
  if granted then
    match videoRef_current s with
    | Some _ =>
        {| app := app s; isCameraActive := true;
           showControls := showControls s; geminiRef := true |}
    | None => s
    end
  else s.

(** What the user and the gesture service can do to [App]. *)
Inductive Event :=
| ClickTemplate (k : nat)
| PickColor (c : string)
| SetShowControls (b : bool)
| ClickEnableGesture (granted : bool)
| GestureCallback (g : GestureState).

(** The template buttons call [setTemplate(t.type)]; the "Enable Gesture"
    button is rendered only while [!isCameraActive]; the callback
    [(state) => setGesture(state)] exists only inside a service created by
    [startCamera]. *)
Definition handle (s : State) (e : Event) : State :=
  match e with
  | ClickTemplate k =>
      match TEMPLATES !! k with
      | Some t =>
          {| app := {| App.template := fst t;
                       App.color := App.color (app s);
                       App.app_gesture := App.app_gesture (app s) |};
             isCameraActive := isCameraActive s;
             showControls := showControls s;
             geminiRef := geminiRef s |}
      | None => s
      end
  | PickColor c =>
      {| app := {| App.template := App.template (app s);
                   App.color := c;
                   App.app_gesture := App.app_gesture (app s) |};
         isCameraActive := isCameraActive s;
         showControls := showControls s;
         geminiRef := geminiRef s |}
  | SetShowControls b =>
      {| app := app s; isCameraActive := isCameraActive s;
         showControls := b; geminiRef := geminiRef s |}
  | ClickEnableGesture granted =>
      if isCameraActive s then s else startCamera granted s
  | GestureCallback g =>
      if geminiRef s then
        {| app := App.setGesture g (app s);
           isCameraActive := isCameraActive s;
           showControls := showControls s;
           geminiRef := geminiRef s |}
      else s
  end.

Definition run (s : State) (es : list Event) : State := foldl handle s es.

End UI.

(** ** The gesture service *)

Module GeminiService.

(** An entry of [message.toolCall.functionCalls]; [fc.args] is cast to
    [GestureState] without any check. *)
Record FunctionCall := mkCall {
  fc_id : string;
  fc_name : string;
  fc_args : GestureState
}.

(** An entry handed to [session.sendToolResponse]. *)
Record FunctionResponse := mkResponse {
  fr_id : string;
  fr_name : string;
  fr_result : string
}.

(** The body of [for (const fc of message.toolCall.functionCalls)], on the
    pair of the gestures handed to [onGestureUpdate] and of the responses
    queued on [sessionPromise], both in the order of the calls. *)
Definition tool_call (acc : list GestureState * list FunctionResponse)
    (fc : FunctionCall) : list GestureState * list FunctionResponse :=
  if String.eqb (fc_name fc) "updateGesture" then
    (fst acc ++ [fc_args fc],
     snd acc ++ [mkResponse (fc_id fc) (fc_name fc) "ok"])
  else acc.

Definition tool_calls (calls : list FunctionCall)
    : list GestureState * list FunctionResponse :=
  foldl tool_call ([], []) calls.

(** [decode]: [atob] yields the binary string, or throws (written [None]);
    the loop stores [binaryString.charCodeAt(i)] in byte [i]. *)
Definition decode (atob : string -> option string) (base64 : string)
    : option (list Byte.byte) :=
  match atob base64 with
  | Some binaryString =>
      Some (map Ascii.byte_of_ascii (list_ascii_of_string binaryString))
  | None => None
  end.

(** One element of an [Int16Array] over a buffer: two bytes, low byte
    first, read as a 16-bit two's complement integer. *)
Definition int16 (lo hi : Byte.byte) : Z :=
  let u := (Z.of_N (Byte.to_N lo) + 256 * Z.of_N (Byte.to_N hi))%Z in
  if (u <? 32768)%Z then u else (u - 65536)%Z.

Fixpoint int16_elements (buffer : list Byte.byte) : list Z :=
  match buffer with
  | lo :: hi :: rest => int16 lo hi :: int16_elements rest
  | _ => []
  end.

(** [new Int16Array(data.buffer)] throws a [RangeError] when the byte
    length is odd. *)
Definition Int16Array (buffer : list Byte.byte) : option (list Z) :=
  if Nat.even (length buffer) then Some (int16_elements buffer) else None.

(** The [AudioBuffer] of the Web Audio API, as far as the service uses it. *)
Record AudioBuffer := mkAudioBuffer {
  numberOfChannels : nat;
  buffer_length : nat;
  sampleRate : R;
  channels : list (list R)
}.

(** [ctx.createBuffer(numChannels, frameCount, sampleRate)]: zero-filled
    channels; throws [NotSupportedError] for zero channels or zero frames.
    (The check of the sample rate against the rates the context supports is
    not modelled; the service passes 24000.) *)
Definition createBuffer (numChannels frameCount : nat) (rate : R)
    : option AudioBuffer :=
  if (numChannels =? 0)%nat || (frameCount =? 0)%nat then None
  else Some {| numberOfChannels := numChannels;
               buffer_length := frameCount;
               sampleRate := rate;
               channels := replicate numChannels (replicate frameCount 0) |}.

(** [AudioBuffer.duration] *)
Definition duration (b : AudioBuffer) : R :=
  INR (buffer_length b) / sampleRate b.

(** The inner loop of [decodeAudioData] for one channel. *)
Definition fill_channel (dataInt16 : list Z) (numChannels frameCount : nat)
    (channel : nat) (channelData : list R) : list R :=
  foldl (fun cd i =>
           <[i := IZR (dataInt16 !!! (i * numChannels + channel)%nat)
                  / 32768]> cd)
        channelData (seq 0 frameCount).

(** [decodeAudioData(data, ctx, sampleRate, numChannels)].  The source
    computes [frameCount = dataInt16.length / numChannels] as a number;
    [createBuffer] truncates it and the writes of the loop past the
    truncated length are ignored, so the integer quotient gives the same
    buffer. *)
Definition decodeAudioData (data : list Byte.byte) (rate : R)
    (numChannels : nat) : option AudioBuffer :=
  match Int16Array data with
  | None => None
  | Some dataInt16 =>
      let frameCount := (length dataInt16 / numChannels)%nat in
      match createBuffer numChannels frameCount rate with
      | None => None
      | Some buffer =>
          Some {| numberOfChannels := numberOfChannels buffer;
                  buffer_length := buffer_length buffer;
                  sampleRate := sampleRate buffer;
                  channels :=
                    foldl (fun chans channel =>
                             <[channel :=
                                 fill_channel dataInt16 numChannels
                                   frameCount channel (chans !!! channel)]>
                               chans)
                          (channels buffer) (seq 0 numChannels) |}
      end
  end.

(** A started [AudioBufferSourceNode]: the order of its creation, the time
    given to [source.start] and the duration of its buffer. *)
Record Source := mkSource {
  src_id : nat;
  src_start : R;
  src_duration : R
}.

(** The playback fields of the service: [nextStartTime], the set [sources]
    in insertion order, the number of source nodes created so far, and the
    nodes on which [stop()] was called. *)
Record State := mkState {
  nextStartTime : R;
  sources : list Source;
  created : nat;
  stopped : list nat
}.

Definition initial : State :=
  {| nextStartTime := 0; sources := []; created := 0; stopped := [] |}.

(** What [onmessage] has in hand once its property accesses have gone
    through without a [TypeError]: [toolCall.functionCalls] when [toolCall]
    is present, the string [serverContent.modelTurn.parts[0].inlineData.data]
    when the chain of optional accesses reaches it, and
    [serverContent.interrupted].  The accesses themselves, and the two ways
    they can throw, are in [onmessage_live] below. *)
Record Message := mkMessage {
  toolCall : option (list FunctionCall);
  audio : option string;
  interrupted : bool
}.

(** What a call of [onmessage] leaves: the playback state, the gestures
    handed to [onGestureUpdate], the tool responses queued, and whether the
    handler's promise is rejected by an exception. *)
Record Outcome := mkOutcome {
  state : State;
  gestures : list GestureState;
  responses : list FunctionResponse;
  rejected : bool
}.

(** [if (message.serverContent?.interrupted) { ... }] *)
Definition interrupt (st : State) : State :=
  {| nextStartTime := 0;
     sources := [];
     created := created st;
     stopped := stopped st ++ map src_id (sources st) |}.

(** [onmessage] at audio-clock time [now] ([outputAudioContext.currentTime]
    when it is read), on the properties read from the message.  An empty
    string is falsy, so it is skipped like a missing one. *)
Definition onmessage (atob : string -> option string) (now : R)
    (msg : Message) (st : State) : Outcome :=
  let calls :=
    match toolCall msg with
    | Some calls => tool_calls calls
    | None => ([], [])
    end in
  let finish (st : State) : State :=
    if interrupted msg then interrupt st else st in
  let done (st : State) (failed : bool) : Outcome :=
    {| state := st; gestures := fst calls; responses := snd calls;
       rejected := failed |} in
  match audio msg with
  | None => done (finish st) false
  | Some base64 =>
      if String.eqb base64 "" then done (finish st) false
      else
        let start := Rmax (nextStartTime st) now in
        let raised :=
          {| nextStartTime := start; sources := sources st;
             created := created st; stopped := stopped st |} in
        match decode atob base64 with
        | None => done raised true
        | Some bytes =>
            match decodeAudioData bytes 24000 1 with
            | None => done raised true
            | Some audioBuffer =>
                done (finish
                        {| nextStartTime := start + duration audioBuffer;
                           sources :=
                             sources st
                             ++ [mkSource (created st) start
                                   (duration audioBuffer)];
                           created := S (created st);
                           stopped := stopped st |}) false
            end
        end
  end.

(** The message as it arrives.  Every property may be missing:
    [toolCall], and inside it [functionCalls]; [serverContent], and inside
    it [modelTurn], inside that [parts]; the first part may lack
    [inlineData.data].  [serverContent.interrupted] is false when
    missing. *)
Record Part := mkPart {
  inlineData_data : option string
}.

Record ModelTurn := mkModelTurn {
  parts : option (list Part)
}.

Record ServerContent := mkServerContent {
  modelTurn : option ModelTurn;
  sc_interrupted : bool
}.

Record LiveServerMessage := mkLive {
  live_toolCall : option (option (list FunctionCall));
  serverContent : option ServerContent
}.

(** [message.serverContent?.modelTurn?.parts[0]?.inlineData?.data]: the
    chain stops at a missing [serverContent] or [modelTurn], but [parts] is
    indexed without [?.], so a [modelTurn] without [parts] throws a
    [TypeError], written [None]. *)
Definition audio_of (m : LiveServerMessage) : option (option string) :=
  match serverContent m with
  | None => Some None
  | Some sc =>
      match modelTurn sc with
      | None => Some None
      | Some turn =>
          match parts turn with
          | None => None
          | Some ps =>
              Some (match ps !! 0%nat with
                    | Some part => inlineData_data part
                    | None => None
                    end)
          end
      end
  end.

(** [message.serverContent?.interrupted] *)
Definition interrupted_of (m : LiveServerMessage) : bool :=
  match serverContent m with
  | Some sc => sc_interrupted sc
  | None => false
  end.

(** The whole of [onmessage] on the message as it arrives.  A [toolCall]
    without [functionCalls] makes [for ... of] throw before anything is
    done; a [modelTurn] without [parts] throws after the tool calls and
    before [nextStartTime] is touched; otherwise the handler goes on as
    [onmessage] above, on the properties it has read. *)
Definition onmessage_live (atob : string -> option string) (now : R)
    (m : LiveServerMessage) (st : State) : Outcome :=
  match live_toolCall m with
  | Some None =>
      {| state := st; gestures := []; responses := []; rejected := true |}
  | calls =>
      let calls :=
        match calls with
        | Some (Some calls) => Some calls
        | _ => None
        end in
      match audio_of m with
      | None =>
          {| state := st;
             gestures :=
               fst (match calls with
                    | Some calls => tool_calls calls
                    | None => ([], [])
                    end);
             responses :=
               snd (match calls with
                    | Some calls => tool_calls calls
                    | None => ([], [])
                    end);
             rejected := true |}
      | Some audio =>
          onmessage atob now (mkMessage calls audio (interrupted_of m)) st
      end
  end.

(** What happens to the playback state: a message arrives, or a source
    node fires ['ended'] and its listener runs [sources.delete(source)]. *)
Inductive Event :=
| Receive (now : R) (msg : Message)
| Ended (id : nat).

Definition handle (atob : string -> option string) (st : State) (e : Event)
    : State :=
  match e with
  | Receive now msg => state (onmessage atob now msg st)
  | Ended id =>
      {| nextStartTime := nextStartTime st;
         sources := filter (fun s => src_id s <> id) (sources st);
         created := created st;
         stopped := stopped st |}
  end.

(** The streaming fields: [streamInterval] (a timer handle is a positive
    integer, hence truthy) and the timers of the service that the browser
    still runs. *)
Record Streaming := mkStreaming {
  streamInterval : option positive;
  timers : list positive
}.

(** [if (this.streamInterval) clearInterval(this.streamInterval);] *)
Definition clear (st : Streaming) : list positive :=
  match streamInterval st with
  | Some id => filter (fun t => t <> id) (timers st)
  | None => timers st
  end.

(** [startStreaming], called by [onopen]; [handle] is what
    [window.setInterval] returns. *)
Definition startStreaming (handle : positive) (st : Streaming) : Streaming :=
  {| streamInterval := Some handle; timers := clear st ++ [handle] |}.

(** The timer part of [disconnect] and of [onclose]: the field keeps the
    stale handle. *)
Definition stopStreaming (st : Streaming) : Streaming :=
  {| streamInterval := streamInterval st; timers := clear st |}.

Inductive StreamEvent :=
| Open (handle : positive)
| Close
| Disconnect.

Definition stream (st : Streaming) (e : StreamEvent) : Streaming :=
  match e with
  | Open handle => startStreaming handle st
  | Close => stopStreaming st
  | Disconnect => stopStreaming st
  end.

(** Sources in insertion order play one after the other. *)
Fixpoint ordered (l : list Source) : Prop :=
  match l with
  | [] => True
  | s :: later =>
      Forall (fun s' => src_start s + src_duration s <= src_start s') later
      /\ ordered later
  end.

Definition playback_ok (st : State) : Prop :=
  ordered (sources st)
  /\ Forall (fun s => 0 < src_duration s
                      /\ src_start s + src_duration s <= nextStartTime st
                      /\ (src_id s < created st)%nat) (sources st).

(** The only timer the browser may still run is the one in the field. *)
Definition streaming_ok (st : Streaming) : Prop :=
  timers st = []
  \/ exists id, streamInterval st = Some id /\ timers st = [id].

End GeminiService.

(** ** Invariants *)

(** The two buffers have the length the component allocates them with. *)
Definition buffers_ok (n : nat) (s : Scene) : Prop :=
  length (targetPositions s) = (n * 3)%nat
  /\ forall p, pointsRef s = Some p ->
               length (position_array p) = (n * 3)%nat.

(** What [App] keeps true from its initial state on. *)
Definition camera_off (s : UI.State) : Prop :=
  UI.isCameraActive s = false
  /\ UI.geminiRef s = false
  /\ App.app_gesture (UI.app s) = mkGesture 0 0 false
  /\ exists label, (App.template (UI.app s), label) ∈ UI.TEMPLATES.

(** ** Loops that own three slots per index *)

(** Both loops of the program run [i] over [0 .. n-1] and at step [i] write
    only the slots [i*3], [i*3+1], [i*3+2] of an array.  [get] projects the
    array out of the loop state. *)
Section Loop.

Context {St : Type} (get : St -> list R) (f : St -> nat -> St).

Hypothesis f_other : forall s i k,
  (k < i * 3 \/ i * 3 + 3 <= k)%nat -> get (f s i) !! k = get s !! k.

Hypothesis f_length : forall s i, length (get (f s i)) = length (get s).

Lemma loop_length n a s :
  length (get (foldl f s (seq a n))) = length (get s).
Proof.
  revert a s. induction n as [|n IH]; intros a s; simpl; [done|].
  rewrite IH. apply f_length.
Qed.

Lemma loop_untouched n a s k :
  (k < a * 3 \/ (a + n) * 3 <= k)%nat ->
  get (foldl f s (seq a n)) !! k = get s !! k.
Proof.
  revert a s. induction n as [|n IH]; intros a s Hk; simpl; [done|].
  rewrite IH by lia. apply f_other. lia.
Qed.

Lemma loop_split n i s :
  (i < n)%nat ->
  foldl f s (seq 0 n)
  = foldl f (f (foldl f s (seq 0 i)) i) (seq (S i) (n - S i)).
Proof.
  intros Hi.
  replace n with (i + S (n - S i))%nat at 1 by lia.
  rewrite seq_app, foldl_app. reflexivity.
Qed.

Lemma loop_at n i s k :
  (i < n)%nat -> (k < i * 3 + 3)%nat ->
  get (foldl f s (seq 0 n)) !! k = get (f (foldl f s (seq 0 i)) i) !! k.
Proof.
  intros Hi Hk. rewrite (loop_split n i s Hi).
  apply loop_untouched. lia.
Qed.

Lemma loop_before i s k :
  (i * 3 <= k)%nat -> get (foldl f s (seq 0 i)) !! k = get s !! k.
Proof. intros Hk. apply loop_untouched. lia. Qed.

End Loop.

Lemma lookup_total_eq (a b : list R) k : a !! k = b !! k -> a !!! k = b !!! k.
Proof. intros H. rewrite !list_lookup_total_alt, H. reflexivity. Qed.

Module ParticleSystemFacts.
Import ParticleSystem.

Lemma length_ease target positions i :
  length (ease target positions i) = length positions.
Proof. unfold ease. rewrite !length_insert. reflexivity. Qed.

Lemma length_jitter time positions i :
  length (jitter time positions i) = length positions.
Proof. unfold jitter. rewrite !length_insert. reflexivity. Qed.

Lemma length_morph_point target time positions i :
  length (morph_point target time positions i) = length positions.
Proof. unfold morph_point. rewrite length_jitter. apply length_ease. Qed.

Lemma length_morph n target time positions :
  length (morph n target time positions) = length positions.
Proof.
  unfold morph.
  apply (loop_length (fun l => l) (morph_point target time)).
  intros. apply length_morph_point.
Qed.

Lemma ease_other target positions i k :
  (k < i * 3 \/ i * 3 + 3 <= k)%nat ->
  ease target positions i !! k = positions !! k.
Proof.
  intros Hk. unfold ease.
  rewrite !list_lookup_insert_ne by lia. reflexivity.
Qed.

Lemma jitter_other time positions i k :
  (k < i * 3 \/ i * 3 + 3 <= k)%nat ->
  jitter time positions i !! k = positions !! k.
Proof.
  intros Hk. unfold jitter.
  rewrite !list_lookup_insert_ne by lia. reflexivity.
Qed.

Lemma morph_point_other target time positions i k :
  (k < i * 3 \/ i * 3 + 3 <= k)%nat ->
  morph_point target time positions i !! k = positions !! k.
Proof.
  intros Hk. unfold morph_point.
  rewrite jitter_other by done. by apply ease_other.
Qed.

(** The values [ease] leaves in the three slots of point [i]. *)
Lemma ease_at target positions i :
  (i * 3 + 2 < length positions)%nat ->
  ease target positions i !!! (i * 3)%nat
    = lerp (positions !!! (i * 3)%nat) (target !!! (i * 3)%nat)
  /\ ease target positions i !!! (i * 3 + 1)%nat
    = lerp (positions !!! (i * 3 + 1)%nat) (target !!! (i * 3 + 1)%nat)
  /\ ease target positions i !!! (i * 3 + 2)%nat
    = lerp (positions !!! (i * 3 + 2)%nat) (target !!! (i * 3 + 2)%nat).
Proof.
  intros Hlen. unfold ease. cbv zeta.
  repeat split.
  - rewrite !list_lookup_total_insert_ne by lia.
    rewrite list_lookup_total_insert_eq by lia. reflexivity.
  - rewrite list_lookup_total_insert_ne by lia.
    rewrite list_lookup_total_insert_eq by (rewrite ?length_insert; lia).
    rewrite list_lookup_total_insert_ne by lia. reflexivity.
  - rewrite list_lookup_total_insert_eq by (rewrite ?length_insert; lia).
    rewrite !list_lookup_total_insert_ne by lia. reflexivity.
Qed.

(** The values [jitter] leaves in the three slots of point [i]. *)
Lemma jitter_at time positions i :
  (i * 3 + 2 < length positions)%nat ->
  jitter time positions i !!! (i * 3)%nat
    = positions !!! (i * 3)%nat + sin (time + INR i) * 0.02
  /\ jitter time positions i !!! (i * 3 + 1)%nat
    = positions !!! (i * 3 + 1)%nat + cos (time + INR i) * 0.02
  /\ jitter time positions i !!! (i * 3 + 2)%nat
    = positions !!! (i * 3 + 2)%nat.
Proof.
  intros Hlen. unfold jitter. cbv zeta.
  repeat split.
  - rewrite list_lookup_total_insert_ne by lia.
    rewrite list_lookup_total_insert_eq by lia. reflexivity.
  - rewrite list_lookup_total_insert_eq by (rewrite ?length_insert; lia).
    rewrite list_lookup_total_insert_ne by lia. reflexivity.
  - rewrite !list_lookup_total_insert_ne by lia. reflexivity.
Qed.

End ParticleSystemFacts.

(** ** The animation step: per-point update *)

Import ParticleSystem ParticleSystemFacts.

(** What the loop leaves in the slots of point [i]: every other iteration
    leaves them alone. *)
Lemma morph_at n target time positions i :
  (i < n)%nat -> length positions = (n * 3)%nat ->
  let L c := positions !!! (i * 3 + c)%nat in
  let T c := target !!! (i * 3 + c)%nat in
  let L' c := morph n target time positions !!! (i * 3 + c)%nat in
  L' 0%nat = lerp (L 0%nat) (T 0%nat) + sin (time + INR i) * 0.02
  /\ L' 1%nat = lerp (L 1%nat) (T 1%nat) + cos (time + INR i) * 0.02
  /\ L' 2%nat = lerp (L 2%nat) (T 2%nat).
Proof.
  intros Hi Hlen L T L'. subst L L' T. unfold morph.
  set (f := morph_point target time).
  assert (Hother : forall s j k, (k < j * 3 \/ j * 3 + 3 <= k)%nat ->
                                 f s j !! k = s !! k)
    by (intros; by apply morph_point_other).
  assert (Hl : forall s j, length (f s j) = length s)
    by (intros; apply length_morph_point).
  set (before := foldl f positions (seq 0 i)).
  assert (Hb : forall c, before !!! (i * 3 + c)%nat
                         = positions !!! (i * 3 + c)%nat).
  { intros c. apply lookup_total_eq.
    apply (loop_before (fun l => l) f Hother). lia. }
  assert (Hlb : (i * 3 + 2 < length before)%nat).
  { unfold before. rewrite (loop_length (fun l => l) f Hl). lia. }
  assert (Ha : forall c, (c < 3)%nat ->
             foldl f positions (seq 0 n) !!! (i * 3 + c)%nat
             = f before i !!! (i * 3 + c)%nat).
  { intros c Hc. apply lookup_total_eq.
    apply (loop_at (fun l => l) f Hother); lia. }
  rewrite !Ha by lia. unfold f, morph_point.
  assert (Hle : (i * 3 + 2 < length (ease target before i))%nat)
    by (rewrite length_ease; exact Hlb).
  destruct (jitter_at time (ease target before i) i Hle) as (Jx & Jy & Jz).
  destruct (ease_at target before i Hlb) as (Ex & Ey & Ez).
  rewrite Nat.add_0_r in *.
  rewrite Jx, Jy, Jz, Ex, Ey, Ez.
  rewrite <- (Hb 1%nat), <- (Hb 2%nat). specialize (Hb 0%nat).
  rewrite Nat.add_0_r in Hb. rewrite <- Hb. done.
Qed.

(** C1.  One invocation of the frame callback on a mounted object with live
    buffer [L] and target buffer [T] of [n] points at elapsed time [time]
    leaves, for every point [i < n], [L[c] + (T[c] - L[c]) * 0.1] in each of
    the three coordinates, plus [sin (time + i) * 0.02] in x and
    [cos (time + i) * 0.02] in y, and nothing more in z.  In particular one
    step from live [0,0,0] towards target [10,0,0] with the neutral gesture
    at time 0 yields [1, 0.02, 0]. *)
Theorem step_point_update :
  (forall n s p time i,
      pointsRef s = Some p ->
      length (position_array p) = (n * 3)%nat ->
      length (targetPositions s) = (n * 3)%nat ->
      (i < n)%nat ->
      exists p',
        pointsRef (snd (useFrame n time s)) = Some p'
        /\ let L c := position_array p !!! (i * 3 + c)%nat in
           let T c := targetPositions s !!! (i * 3 + c)%nat in
           let L' c := position_array p' !!! (i * 3 + c)%nat in
           L' 0%nat = L 0%nat + (T 0%nat - L 0%nat) * 0.1
                      + sin (time + INR i) * 0.02
           /\ L' 1%nat = L 1%nat + (T 1%nat - L 1%nat) * 0.1
                         + cos (time + INR i) * 0.02
           /\ L' 2%nat = L 2%nat + (T 2%nat - L 2%nat) * 0.1)
  /\ position_array <$> pointsRef (snd (useFrame 1 0 scenario_scene))
     = Some [1; 0.02; 0].
Proof.
  split.
  - intros n s p time i Hp Hlen _ Hi. unfold useFrame. rewrite Hp.
    eexists. split; [reflexivity|]. cbn [position_array animate transform].
    exact (morph_at n (targetPositions s) time (position_array p) i Hi Hlen).
  - cbn. unfold lerp. replace (0 + 0) with 0 by lra. rewrite sin_0, cos_0.
    do 2 f_equal; [lra|]. f_equal; [lra|]. f_equal. lra.
Qed.

(** The general statement of C1 at the scenario's input. *)
Lemma step_point_update_witness :
  exists p',
    pointsRef (snd (useFrame 1 0 scenario_scene)) = Some p'
    /\ position_array p' !!! 0%nat = 0 + (10 - 0) * 0.1 + sin (0 + 0) * 0.02
    /\ position_array p' !!! 1%nat = 0 + (0 - 0) * 0.1 + cos (0 + 0) * 0.02
    /\ position_array p' !!! 2%nat = 0 + (0 - 0) * 0.1.
Proof.
  destruct (proj1 step_point_update 1%nat scenario_scene
              {| position_array := [0; 0; 0];
                 position_needsUpdate := false;
                 obj_scale := mkVector3 1 1 1;
                 obj_rotation := mkEuler 0 0 0 |} 0 0%nat
              eq_refl eq_refl eq_refl (Nat.lt_0_succ 0))
    as (p' & Hp' & H).
  exists p'. split; [exact Hp'|]. exact H.
Defined.

(** ** The animation step: whole-cloud transform *)

(** C3.  On a mounted object, a frame with gesture [{expansion, rotation,
    isDetected}] sets the uniform scale to [1 + expansion * 2.5] (1 for
    expansion 0, 3.5 for expansion 1), adds [0.002 + rotation * 0.05] to the
    rotation about the y axis and the constant [0.001] to the rotation about
    the z axis, whatever [isDetected] and the other gesture values are. *)
Theorem step_transform n target time p e r d :
  exists p',
    pointsRef (snd (useFrame n time (mkScene (Some p) target (mkGesture e r d))))
    = Some p'
    /\ obj_scale p' = mkVector3 (1 + e * 2.5) (1 + e * 2.5) (1 + e * 2.5)
    /\ (e = 0 -> obj_scale p' = mkVector3 1 1 1)
    /\ (e = 1 -> obj_scale p' = mkVector3 3.5 3.5 3.5)
    /\ e_y (obj_rotation p') = e_y (obj_rotation p) + (0.002 + r * 0.05)
    /\ e_z (obj_rotation p') = e_z (obj_rotation p) + 0.001
    /\ e_x (obj_rotation p') = e_x (obj_rotation p).
Proof.
  eexists. split; [reflexivity|]. cbn. unfold setScalar.
  split; [reflexivity|].
  split; [intros ->; f_equal; lra|].
  split; [intros ->; f_equal; lra|].
  done.
Qed.

(** C3 at expansion 0 and at expansion 1, rotation signal 1, no hand
    detected. *)
Lemma step_transform_witness :
  (exists p',
      pointsRef (snd (useFrame 1 0
        (mkScene (pointsRef scenario_scene) [10; 0; 0] (mkGesture 0 1 false))))
      = Some p'
      /\ obj_scale p' = mkVector3 1 1 1
      /\ e_y (obj_rotation p') = 0 + (0.002 + 1 * 0.05)
      /\ e_z (obj_rotation p') = 0 + 0.001)
  /\ (exists p',
      pointsRef (snd (useFrame 1 0
        (mkScene (pointsRef scenario_scene) [10; 0; 0] (mkGesture 1 1 false))))
      = Some p'
      /\ obj_scale p' = mkVector3 3.5 3.5 3.5).
Proof.
  split.
  - destruct (step_transform 1 [10; 0; 0] 0
                {| position_array := [0; 0; 0];
                   position_needsUpdate := false;
                   obj_scale := mkVector3 1 1 1;
                   obj_rotation := mkEuler 0 0 0 |} 0 1 false)
      as (p' & Hp' & _ & H0 & _ & Hy & Hz & _).
    exists p'. split; [exact Hp'|].
    split; [exact (H0 eq_refl)|]. split; [exact Hy | exact Hz].
  - destruct (step_transform 1 [10; 0; 0] 0
                {| position_array := [0; 0; 0];
                   position_needsUpdate := false;
                   obj_scale := mkVector3 1 1 1;
                   obj_rotation := mkEuler 0 0 0 |} 1 1 false)
      as (p' & Hp' & _ & _ & H1 & _).
    exists p'. split; [exact Hp'|]. exact (H1 eq_refl).
Defined.

(** ** The animation step: frame *)

(** C9 as stated fails on the [needsUpdate] flag of the position attribute:
    on a freshly mounted object it is [false] before the first frame and
    [true] after it, a change that is neither an element of the live buffer
    nor the scale nor the rotation. *)
Lemma step_frame_counterexample :
  position_needsUpdate <$> pointsRef (App.mounted 1 [10; 0; 0] App.initial)
  = Some false
  /\ position_needsUpdate
     <$> pointsRef (snd (useFrame 1 0 (App.mounted 1 [10; 0; 0] App.initial)))
     = Some true.
Proof. split; reflexivity. Qed.

(** C9, amended.  A frame returns no value, leaves the target buffer and the
    gesture state as they are, keeps the live buffer's length and the
    rotation about the x axis, and keeps an unmounted ref unmounted; beside
    the live buffer's elements, the scale and the rotation about y and z it
    modifies only the [needsUpdate] flag of the position attribute, which it
    sets. *)
Theorem step_frame n time s :
  fst (useFrame n time s) = tt
  /\ targetPositions (snd (useFrame n time s)) = targetPositions s
  /\ gesture (snd (useFrame n time s)) = gesture s
  /\ match pointsRef s, pointsRef (snd (useFrame n time s)) with
     | Some p, Some p' =>
         length (position_array p') = length (position_array p)
         /\ e_x (obj_rotation p') = e_x (obj_rotation p)
         /\ position_needsUpdate p' = true
     | None, None => snd (useFrame n time s) = s
     | _, _ => False
     end.
Proof.
  unfold useFrame. destruct (pointsRef s) as [p|] eqn:Hp; cbn.
  - repeat split; try reflexivity. apply length_morph.
  - rewrite Hp. done.
Qed.

(** ** Frames before the first gesture report *)

Lemma run_frames n target g p times :
  exists p',
    pointsRef (App.run n (mkScene (Some p) target g) (App.Frame <$> times))
    = Some p'
    /\ targetPositions
         (App.run n (mkScene (Some p) target g) (App.Frame <$> times))
       = target
    /\ gesture (App.run n (mkScene (Some p) target g) (App.Frame <$> times))
       = g
    /\ (times <> [] ->
        obj_scale p' = mkVector3 (1 + expansion g * 2.5)
                         (1 + expansion g * 2.5) (1 + expansion g * 2.5))
    /\ e_y (obj_rotation p')
       = e_y (obj_rotation p)
         + INR (length times) * (0.002 + rotation g * 0.05)
    /\ e_z (obj_rotation p')
       = e_z (obj_rotation p) + INR (length times) * 0.001.
Proof.
  unfold App.run. induction times as [|t times IH] using rev_ind.
  - exists p. cbn. repeat split; try done; lra.
  - destruct IH as (p1 & H1 & Ht & Hg & _ & Hy & Hz).
    rewrite fmap_app, foldl_app. cbn [fmap list_fmap foldl App.handle].
    set (s1 := foldl _ _ _) in *.
    unfold useFrame. rewrite H1. cbn.
    eexists. split; [reflexivity|]. rewrite Ht, Hg.
    split; [done|]. split; [done|]. split; [done|].
    cbn [animate transform obj_rotation e_y e_z].
    rewrite length_app, Nat.add_1_r, S_INR, Hy, Hz. split; lra.
Qed.

(** C10.  The gesture state the application starts with is
    [{expansion: 0, rotation: 0, isDetected: false}]; as long as no gesture
    report has arrived, that is over any run of frames only, the callback
    reads this state, so that after the first frame the uniform scale is 1
    and every frame adds 0.002 to the rotation about y and 0.001 to the
    rotation about z. *)
Theorem initial_gesture_frames :
  App.app_gesture App.initial = mkGesture 0 0 false
  /\ forall n target p t times,
       let s := App.run n (mkScene (Some p) target
                             (App.app_gesture App.initial))
                  (App.Frame <$> t :: times) in
       gesture s = mkGesture 0 0 false
       /\ exists p',
            pointsRef s = Some p'
            /\ obj_scale p' = mkVector3 1 1 1
            /\ e_y (obj_rotation p')
               = e_y (obj_rotation p) + INR (S (length times)) * 0.002
            /\ e_z (obj_rotation p')
               = e_z (obj_rotation p) + INR (S (length times)) * 0.001.
Proof.
  split; [reflexivity|]. intros n target p t times s.
  destruct (run_frames n target (App.app_gesture App.initial) p (t :: times))
    as (p' & Hp & _ & Hg & Hs & Hy & Hz).
  fold s in Hp, Hg. split; [exact Hg|].
  exists p'. split; [exact Hp|]. cbn [App.initial App.app_gesture expansion rotation] in *.
  split.
  - rewrite Hs by done. f_equal; lra.
  - cbn [length] in Hy, Hz. rewrite Hy, Hz. split; lra.
Qed.

(** ** Contraction by the easing, and where it stops *)


Lemma dist_nonneg a b i : 0 <= dist a b i.
Proof. unfold dist. apply sqrt_pos. Qed.




(** The literal [0.1] is within half a unit in the last place of one
    tenth, and is the correctly rounded quotient of 1 by 10. *)
Lemma stored_tenth :
  Rabs (Stored.value Stored.tenth - 0.1) < / 2 ^ 57
  /\ SFdiv 53 1024 (S754_finite false 4503599627370496 (-52))
       (S754_finite false 5629499534213120 (-49)) = Stored.tenth.
Proof.
  split; [|vm_compute; reflexivity].
  unfold Stored.value, Stored.tenth, powerRZ. cbn [cond_Zopp].
  change (Pos.to_nat 56) with 56%nat.
  apply Rabs_def1; simpl pow; lra.
Qed.








(** ** The generator's loop *)

Section GeneratorFacts.

Variable random : nat -> R.

Lemma length_store_point positions i p :
  length (store_point positions i p) = length positions.
Proof.
  destruct p as [[x y] z]. unfold store_point.
  rewrite !length_insert. reflexivity.
Qed.

Lemma store_point_other positions i p k :
  (k < i * 3 \/ i * 3 + 3 <= k)%nat ->
  store_point positions i p !! k = positions !! k.
Proof.
  intros Hk. destruct p as [[x y] z]. unfold store_point.
  rewrite !list_lookup_insert_ne by lia. reflexivity.
Qed.

Lemma store_point_at positions i x y z :
  (i * 3 + 2 < length positions)%nat ->
  store_point positions i (x, y, z) !! (i * 3)%nat = Some x
  /\ store_point positions i (x, y, z) !! (i * 3 + 1)%nat = Some y
  /\ store_point positions i (x, y, z) !! (i * 3 + 2)%nat = Some z.
Proof.
  intros Hlen. unfold store_point. repeat split.
  - rewrite !list_lookup_insert_ne by lia.
    apply list_lookup_insert_eq. lia.
  - rewrite list_lookup_insert_ne by lia.
    apply list_lookup_insert_eq. rewrite length_insert. lia.
  - apply list_lookup_insert_eq. rewrite !length_insert. lia.
Qed.

Lemma generate_step_fst type count st i :
  fst (generate_step random type count st i)
  = store_point (fst st) i (fst (point random type count i (snd st))).
Proof.
  unfold generate_step.
  destruct (point random type count i (snd st)) as [p n']. reflexivity.
Qed.

Lemma length_generatePositions type count :
  length (generatePositions random type count) = (count * 3)%nat.
Proof.
  unfold generatePositions.
  rewrite (loop_length fst (generate_step random type count)).
  - apply length_replicate.
  - intros s i. rewrite generate_step_fst. apply length_store_point.
Qed.

(** Point [i] of the result is what [point] computes for index [i] from the
    draws left at that iteration. *)
Lemma generatePositions_at type count i :
  (i < count)%nat ->
  exists k x y z,
    fst (point random type count i k) = (x, y, z)
    /\ generatePositions random type count !! (i * 3)%nat = Some x
    /\ generatePositions random type count !! (i * 3 + 1)%nat = Some y
    /\ generatePositions random type count !! (i * 3 + 2)%nat = Some z.
Proof.
  intros Hi. unfold generatePositions.
  set (f := generate_step random type count).
  set (s0 := (replicate (count * 3) 0, 0%nat)).
  assert (Hother : forall s j k, (k < j * 3 \/ j * 3 + 3 <= k)%nat ->
                                 fst (f s j) !! k = fst s !! k).
  { intros s j k Hk. unfold f. rewrite generate_step_fst.
    by apply store_point_other. }
  assert (Hl : forall s j, length (fst (f s j)) = length (fst s)).
  { intros s j. unfold f. rewrite generate_step_fst.
    apply length_store_point. }
  set (before := foldl f s0 (seq 0 i)).
  assert (Hlb : (i * 3 + 2 < length (fst before))%nat).
  { unfold before. rewrite (loop_length fst f Hl).
    cbn. rewrite length_replicate. lia. }
  destruct (fst (point random type count i (snd before)))
    as [[x y] z] eqn:Hp.
  exists (snd before), x, y, z. split; [exact Hp|].
  rewrite !(loop_at fst f Hother count i s0) by lia.
  fold before. unfold f. rewrite generate_step_fst, Hp.
  by apply store_point_at.
Qed.

End GeneratorFacts.

(** ** Unrecognised template *)

Section Unrecognised.

Variable random : nat -> R.

Lemma point_unrecognised type count i k :
  type <> "HEART"%string -> type <> "FLOWER"%string ->
  type <> "SATURN"%string -> type <> "BUDDHA"%string ->
  type <> "FIREWORKS"%string ->
  point random type count i k = ((0, 0, 0), k).
Proof.
  intros H1 H2 H3 H4 H5. unfold point.
  apply String.eqb_neq in H1, H2, H3, H4, H5.
  rewrite H1, H2, H3, H4, H5. reflexivity.
Qed.

Lemma store_origin m i :
  store_point (replicate m 0) i (0, 0, 0) = replicate m 0.
Proof. unfold store_point. rewrite !insert_replicate. reflexivity. Qed.

Lemma generate_unrecognised_loop type count m n a :
  type <> "HEART"%string -> type <> "FLOWER"%string ->
  type <> "SATURN"%string -> type <> "BUDDHA"%string ->
  type <> "FIREWORKS"%string ->
  foldl (generate_step random type count) (replicate m 0, 0%nat) (seq a n)
  = (replicate m 0, 0%nat).
Proof.
  intros H1 H2 H3 H4 H5. revert a.
  induction n as [|n IH]; intros a; [reflexivity|].
  cbn [seq foldl]. unfold generate_step at 2.
  rewrite point_unrecognised by done. cbn [fst snd].
  rewrite store_origin. apply IH.
Qed.

End Unrecognised.

(** C8.  For a template string that is none of the five recognised ones,
    [generatePositions] returns (it is a total function, there is no error
    path) an array of [3 * count] numbers, all of them zero. *)
Theorem generate_unrecognised random type count :
  type <> "HEART"%string -> type <> "FLOWER"%string ->
  type <> "SATURN"%string -> type <> "BUDDHA"%string ->
  type <> "FIREWORKS"%string ->
  length (generatePositions random type count) = (3 * count)%nat
  /\ generatePositions random type count = replicate (3 * count) 0
  /\ forall k, (k < 3 * count)%nat ->
       generatePositions random type count !! k = Some 0.
Proof.
  intros H1 H2 H3 H4 H5.
  assert (Heq : generatePositions random type count
                = replicate (3 * count) 0).
  { unfold generatePositions.
    rewrite generate_unrecognised_loop by done.
    cbn [fst]. f_equal. lia. }
  split; [rewrite Heq; apply length_replicate|].
  split; [exact Heq|].
  intros k Hk. rewrite Heq. by apply lookup_replicate_2.
Qed.

(** C8 for the string "CUBE" and two points. *)
Lemma generate_unrecognised_witness :
  generatePositions (fun _ => 0.5) "CUBE" 2 = [0; 0; 0; 0; 0; 0].
Proof.
  apply (generate_unrecognised (fun _ => 0.5) "CUBE" 2);
    intros H; discriminate H.
Defined.

(** ** FLOWER *)

Lemma point_flower random count i k :
  point random "FLOWER" count i k
  = ((flower_radius count i * cos (flower_angle i),
      flower_radius count i * sin (flower_angle i),
      sin (flower_radius count i * 0.5) * 2), k).
Proof. reflexivity. Qed.

Lemma flower_radius_mono count i j :
  (0 < count)%nat -> (i <= j)%nat ->
  flower_radius count i <= flower_radius count j.
Proof.
  intros Hc Hij. unfold flower_radius.
  apply Rmult_le_compat_l; [lra|].
  apply sqrt_le_1_alt.
  apply Rmult_le_compat_r.
  - left. apply Rinv_0_lt_compat. apply (lt_INR 0). exact Hc.
  - apply le_INR. exact Hij.
Qed.

(** C6.  In [generatePositions "FLOWER" count], point [i] has radius
    [15 * sqrt (i / count)] and angle [i * 137.5] degrees (in radians), and
    coordinates [x = r * cos angle], [y = r * sin angle],
    [z = 2 * sin (0.5 * r)]; the radius is 0 at point 0 and non-decreasing
    in [i], and consecutive angles differ by exactly 137.5 degrees. *)
Theorem generate_flower random count i :
  (0 < count)%nat -> (i < count)%nat ->
  let P := generatePositions random "FLOWER" count in
  let r := 15 * sqrt (INR i / INR count) in
  let angle := INR i * 137.5 * (PI / 180) in
  flower_radius count i = r
  /\ flower_angle i = angle
  /\ P !! (i * 3)%nat = Some (r * cos angle)
  /\ P !! (i * 3 + 1)%nat = Some (r * sin angle)
  /\ P !! (i * 3 + 2)%nat = Some (2 * sin (0.5 * r))
  /\ flower_radius count 0 = 0
  /\ flower_radius count i <= flower_radius count (S i)
  /\ (forall j, (i <= j)%nat -> flower_radius count i <= flower_radius count j)
  /\ flower_angle (S i) - flower_angle i = 137.5 * (PI / 180).
Proof.
  intros Hc Hi P r angle.
  destruct (generatePositions_at random "FLOWER" count i Hi)
    as (k & x & y & z & Hp & Hx & Hy & Hz).
  rewrite point_flower in Hp. cbn [fst] in Hp.
  injection Hp as <- <- <-.
  split; [reflexivity|]. split; [reflexivity|].
  split; [exact Hx|]. split; [exact Hy|].
  split.
  { subst P. rewrite Hz. f_equal. unfold flower_radius. subst r.
    rewrite (Rmult_comm (15 * _) 0.5). ring. }
  split.
  { unfold flower_radius. cbn [INR]. unfold Rdiv.
    rewrite Rmult_0_l, sqrt_0. ring. }
  split; [apply flower_radius_mono; [done|lia]|].
  split; [intros j Hj; by apply flower_radius_mono|].
  unfold flower_angle. rewrite S_INR. ring.
Qed.

(** C6 at the spec's scenario [generate('FLOWER', 4)], point 1. *)
Lemma generate_flower_witness :
  flower_radius 4 0 = 0
  /\ flower_radius 4 1 <= flower_radius 4 2
  /\ flower_angle 2 - flower_angle 1 = 137.5 * (PI / 180).
Proof.
  destruct (generate_flower (fun _ => 0.5) 4 1
              (Nat.lt_0_succ 3) (proj1 (Nat.succ_lt_mono 0 3) (Nat.lt_0_succ 2)))
    as (_ & _ & _ & _ & _ & H0 & Hm & _ & Ha).
  split; [exact H0|]. split; [exact Hm | exact Ha].
Defined.

(** ** SATURN *)

Lemma saturn_branch_sphere count i :
  saturn_branch count i = Sphere <-> INR i < INR count * 0.6.
Proof.
  unfold saturn_branch.
  destruct (Rlt_dec (INR i) (INR count * 0.6)); split; intros; done.
Qed.

Lemma saturn_branch_ring count i :
  saturn_branch count i = Ring <-> ~ INR i < INR count * 0.6.
Proof.
  unfold saturn_branch.
  destruct (Rlt_dec (INR i) (INR count * 0.6)); split; intros; done.
Qed.

Lemma point_saturn_sphere random count i k :
  saturn_branch count i = Sphere ->
  point random "SATURN" count i k
  = ((10 * sin (phi count i) * cos (theta count i),
      10 * sin (phi count i) * sin (theta count i),
      10 * cos (phi count i)), k).
Proof. intros Hb. unfold point. cbn [String.eqb Ascii.eqb Bool.eqb].
  rewrite Hb. reflexivity. Qed.

Lemma point_saturn_ring random count i k :
  saturn_branch count i = Ring ->
  point random "SATURN" count i k
  = (((14 + (22 - 14) * random k) * cos (random (S k) * PI * 2),
      (random (S (S k)) - 0.5) * 0.5,
      (14 + (22 - 14) * random k) * sin (random (S k) * PI * 2)),
     S (S (S k))).
Proof. intros Hb. unfold point. cbn [String.eqb Ascii.eqb Bool.eqb].
  rewrite Hb. reflexivity. Qed.

Lemma on_sphere r p t :
  (r * sin p * cos t) ^ 2 + (r * sin p * sin t) ^ 2 + (r * cos p) ^ 2 = r ^ 2.
Proof.
  pose proof (sin2_cos2 p) as Hp. pose proof (sin2_cos2 t) as Ht.
  unfold Rsqr in Hp, Ht.
  replace ((r * sin p * cos t) ^ 2 + (r * sin p * sin t) ^ 2
           + (r * cos p) ^ 2)
    with (r ^ 2 * ((sin p * sin p) * (sin t * sin t + cos t * cos t)
                   + cos p * cos p)) by ring.
  rewrite Ht, Rmult_1_r, Hp. ring.
Qed.

Lemma on_circle r a :
  0 <= r -> sqrt ((r * cos a) ^ 2 + (r * sin a) ^ 2) = r.
Proof.
  intros Hr. pose proof (sin2_cos2 a) as Ha. unfold Rsqr in Ha.
  replace ((r * cos a) ^ 2 + (r * sin a) ^ 2)
    with (r * r * (sin a * sin a + cos a * cos a)) by ring.
  rewrite Ha, Rmult_1_r. by apply sqrt_square.
Qed.

(** C4.  In [generatePositions "SATURN" count], every index [i] with
    [i < 0.6 * count] yields the point of polar angle
    [phi = acos (-1 + 2 i / count)] and azimuth
    [theta = phi * sqrt (count * PI)] on the sphere of radius 10
    ([x^2 + y^2 + z^2 = 100]), and every other index yields a ring point with
    [sqrt (x^2 + z^2)] in [14, 22] and [y] in [-0.25, 0.25]. *)
Theorem generate_saturn random count i :
  (forall k, 0 <= random k < 1) ->
  (0 < count)%nat -> (i < count)%nat ->
  let P := generatePositions random "SATURN" count in
  exists x y z,
    P !! (i * 3)%nat = Some x
    /\ P !! (i * 3 + 1)%nat = Some y
    /\ P !! (i * 3 + 2)%nat = Some z
    /\ (INR i < 0.6 * INR count ->
        let ph := acos (-1 + 2 * INR i / INR count) in
        let th := ph * sqrt (INR count * PI) in
        x = 10 * sin ph * cos th
        /\ y = 10 * sin ph * sin th
        /\ z = 10 * cos ph
        /\ x ^ 2 + y ^ 2 + z ^ 2 = 100)
    /\ (~ INR i < 0.6 * INR count ->
        14 <= sqrt (x ^ 2 + z ^ 2) <= 22 /\ -0.25 <= y <= 0.25).
Proof.
  intros Hrand Hc Hi P.
  destruct (generatePositions_at random "SATURN" count i Hi)
    as (k & x & y & z & Hp & Hx & Hy & Hz).
  exists x, y, z. split; [exact Hx|]. split; [exact Hy|]. split; [exact Hz|].
  split.
  - intros Hlt.
    assert (Hb : saturn_branch count i = Sphere)
      by (apply saturn_branch_sphere; lra).
    rewrite (point_saturn_sphere random count i k Hb) in Hp.
    cbn [fst] in Hp. injection Hp as <- <- <-.
    assert (Hth : theta count i
                  = acos (-1 + 2 * INR i / INR count)
                    * sqrt (INR count * PI))
      by (unfold theta, phi; apply Rmult_comm).
    cbv zeta. rewrite <- Hth. fold (phi count i).
    split; [reflexivity|]. split; [reflexivity|]. split; [reflexivity|].
    rewrite on_sphere. ring.
  - intros Hge.
    assert (Hb : saturn_branch count i = Ring)
      by (apply saturn_branch_ring; lra).
    rewrite (point_saturn_ring random count i k Hb) in Hp.
    cbn [fst] in Hp. injection Hp as <- <- <-.
    pose proof (Hrand k) as Hu. pose proof (Hrand (S (S k))) as Hw.
    rewrite on_circle by lra. lra.
Qed.

(** C4 with every draw equal to 0.5 and five points: point 1 is on the
    sphere, point 4 on the ring. *)
Lemma generate_saturn_witness :
  (exists x y z,
      generatePositions (fun _ => 0.5) "SATURN" 5 !! 3%nat = Some x
      /\ generatePositions (fun _ => 0.5) "SATURN" 5 !! 4%nat = Some y
      /\ generatePositions (fun _ => 0.5) "SATURN" 5 !! 5%nat = Some z
      /\ x ^ 2 + y ^ 2 + z ^ 2 = 100)
  /\ (exists x y z,
      generatePositions (fun _ => 0.5) "SATURN" 5 !! 12%nat = Some x
      /\ generatePositions (fun _ => 0.5) "SATURN" 5 !! 13%nat = Some y
      /\ generatePositions (fun _ => 0.5) "SATURN" 5 !! 14%nat = Some z
      /\ 14 <= sqrt (x ^ 2 + z ^ 2) <= 22 /\ -0.25 <= y <= 0.25).
Proof.
  assert (Hr : forall k : nat, 0 <= 0.5 < 1) by (intros _; lra).
  split.
  - destruct (generate_saturn (fun _ => 0.5) 5 1 Hr
                ltac:(lia) ltac:(lia))
      as (x & y & z & Hx & Hy & Hz & Hs & _).
    exists x, y, z. split; [exact Hx|]. split; [exact Hy|].
    split; [exact Hz|].
    apply Hs. cbn [INR]. lra.
  - destruct (generate_saturn (fun _ => 0.5) 5 4 Hr
                ltac:(lia) ltac:(lia))
      as (x & y & z & Hx & Hy & Hz & _ & Hg).
    exists x, y, z. split; [exact Hx|]. split; [exact Hy|].
    split; [exact Hz|].
    apply Hg. cbn [INR]. lra.
Defined.

(** ** BUDDHA *)

Lemma buddha_branch_torso count i :
  buddha_branch count i = HeadTorso <-> segment count i < 0.3.
Proof.
  unfold buddha_branch.
  destruct (Rlt_dec (segment count i) 0.3);
    [|destruct (Rlt_dec (segment count i) 0.7)]; split; intros; done.
Qed.

Lemma point_buddha_torso random count i k :
  buddha_branch count i = HeadTorso ->
  point random "BUDDHA" count i k
  = (((random k - 0.5) * 6, segment count i * 20 - 5,
      (random (S k) - 0.5) * 4), S (S k)).
Proof. intros Hb. unfold point. cbn [String.eqb Ascii.eqb Bool.eqb].
  rewrite Hb. reflexivity. Qed.

Lemma buddha_branch_legs count i :
  buddha_branch count i = CrossedLegs
  <-> ~ segment count i < 0.3 /\ segment count i < 0.7.
Proof.
  unfold buddha_branch.
  destruct (Rlt_dec (segment count i) 0.3);
    [|destruct (Rlt_dec (segment count i) 0.7)];
    split; intros H; try done; tauto.
Qed.

Lemma buddha_branch_aura count i :
  buddha_branch count i = Aura <-> ~ segment count i < 0.7.
Proof.
  unfold buddha_branch.
  destruct (Rlt_dec (segment count i) 0.3);
    [|destruct (Rlt_dec (segment count i) 0.7)];
    split; intros H; try done; lra.
Qed.

Lemma point_buddha_legs random count i k :
  buddha_branch count i = CrossedLegs ->
  point random "BUDDHA" count i k
  = ((sin ((segment count i - 0.3) * 10) * 12, -10 + random k * 2,
      cos ((segment count i - 0.3) * 10) * 8), S k).
Proof. intros Hb. unfold point. cbn [String.eqb Ascii.eqb Bool.eqb].
  rewrite Hb. reflexivity. Qed.

Lemma point_buddha_aura random count i k :
  buddha_branch count i = Aura ->
  point random "BUDDHA" count i k
  = (((15 + random k * 5) * cos (random (S k) * PI),
      (15 + random k * 5) * sin (random (S k) * PI) - 5, -5), S (S k)).
Proof. intros Hb. unfold point. cbn [String.eqb Ascii.eqb Bool.eqb].
  rewrite Hb. reflexivity. Qed.

Lemma segment_nonneg count i : (0 < count)%nat -> 0 <= segment count i.
Proof.
  intros Hc. unfold segment.
  apply Rmult_le_pos; [apply pos_INR|].
  left. apply Rinv_0_lt_compat. by apply (lt_INR 0).
Qed.

(** C5, amended.  In [generatePositions "BUDDHA" count], every index [i]
    with [i / count < 0.3] yields a head/torso point whose x and z are
    drawn uniformly, [x = (u - 0.5) * 6] in [-3, 3) and [z = (v - 0.5) * 4]
    in [-2, 2) for two successive draws [u], [v], and whose y is the linear
    function [20 * (i / count) - 5] of the segment fraction, which on this
    segment ranges over [-5, 1). *)
Theorem generate_buddha_torso random count i :
  (forall k, 0 <= random k < 1) ->
  (0 < count)%nat -> (i < count)%nat ->
  INR i / INR count < 0.3 ->
  let P := generatePositions random "BUDDHA" count in
  exists k,
    P !! (i * 3)%nat = Some ((random k - 0.5) * 6)
    /\ P !! (i * 3 + 1)%nat = Some (20 * (INR i / INR count) - 5)
    /\ P !! (i * 3 + 2)%nat = Some ((random (S k) - 0.5) * 4)
    /\ -3 <= (random k - 0.5) * 6 < 3
    /\ -2 <= (random (S k) - 0.5) * 4 < 2
    /\ -5 <= 20 * (INR i / INR count) - 5 < 1.
Proof.
  intros Hrand Hc Hi Hseg P.
  destruct (generatePositions_at random "BUDDHA" count i Hi)
    as (k & x & y & z & Hp & Hx & Hy & Hz).
  assert (Hb : buddha_branch count i = HeadTorso)
    by (apply buddha_branch_torso; exact Hseg).
  rewrite (point_buddha_torso random count i k Hb) in Hp.
  cbn [fst] in Hp. injection Hp as <- <- <-.
  exists k. split; [exact Hx|].
  split; [subst P; rewrite Hy; f_equal; unfold segment; ring|].
  split; [exact Hz|].
  pose proof (Hrand k) as Hu. pose proof (Hrand (S k)) as Hv.
  pose proof (segment_nonneg count i Hc) as Hs. unfold segment in Hs.
  lra.
Qed.

Lemma INR_100 : INR 100 = 100.
Proof. rewrite INR_IZR_INZ. reflexivity. Qed.

Lemma INR_29 : INR 29 = 29.
Proof. rewrite INR_IZR_INZ. reflexivity. Qed.

Lemma INR_30 : INR 30 = 30.
Proof. rewrite INR_IZR_INZ. reflexivity. Qed.

(** C5 as stated fails on the span of y: with 100 points the head/torso
    indices are 0 .. 29 (index 30 is already in the next segment), and their
    heights run from -5 at index 0 to 0.8 at index 29, nowhere near 15. *)
Lemma generate_buddha_torso_counterexample :
  INR 29 / INR 100 < 0.3
  /\ ~ INR 30 / INR 100 < 0.3
  /\ generatePositions (fun _ => 0.5) "BUDDHA" 100 !! 1%nat = Some (-5)
  /\ generatePositions (fun _ => 0.5) "BUDDHA" 100 !! 88%nat = Some 0.8.
Proof.
  rewrite INR_29, INR_30, INR_100.
  split; [lra|]. split; [lra|].
  assert (Hat : forall i, (i < 100)%nat -> INR i / 100 < 0.3 ->
            generatePositions (fun _ => 0.5) "BUDDHA" 100 !! (i * 3 + 1)%nat
            = Some (INR i / 100 * 20 - 5)).
  { intros i Hi Hseg.
    destruct (generatePositions_at (fun _ => 0.5) "BUDDHA" 100 i Hi)
      as (k & x & y & z & Hp & _ & Hy & _).
    assert (Hb : buddha_branch 100 i = HeadTorso)
      by (apply buddha_branch_torso; unfold segment; rewrite INR_100; done).
    rewrite (point_buddha_torso _ 100 i k Hb) in Hp.
    cbn [fst] in Hp. injection Hp as <- <- <-.
    rewrite Hy. unfold segment. rewrite INR_100. reflexivity. }
  split.
  - etransitivity;
      [exact (Hat 0%nat ltac:(lia) ltac:(cbn [INR]; lra))|].
    f_equal. cbn [INR]. lra.
  - etransitivity;
      [exact (Hat 29%nat ltac:(lia) ltac:(rewrite INR_29; lra))|].
    f_equal. rewrite INR_29. lra.
Qed.

(** C5 amended, with every draw equal to 0.5, ten points, index 2. *)
Lemma generate_buddha_torso_witness :
  exists k,
    generatePositions (fun _ => 0.5) "BUDDHA" 10 !! 7%nat
    = Some (20 * (INR 2 / INR 10) - 5)
    /\ -3 <= ((fun _ : nat => 0.5) k - 0.5) * 6 < 3
    /\ -5 <= 20 * (INR 2 / INR 10) - 5 < 1.
Proof.
  assert (Hr : forall k : nat, 0 <= 0.5 < 1) by (intros _; lra).
  assert (Hs : INR 2 / INR 10 < 0.3) by (cbn [INR]; lra).
  destruct (generate_buddha_torso (fun _ => 0.5) 10 2 Hr
              ltac:(lia) ltac:(lia) Hs)
    as (k & _ & Hy & _ & Hx & _ & Hb).
  exists k. split; [exact Hy|]. split; [exact Hx | exact Hb].
Defined.

(** ** Partition of the indices by SATURN and BUDDHA *)

(** The indices of [0 .. n-1] satisfying a predicate that holds exactly on
    the interval from [a] up to [b]. *)
Lemma length_filter_interval (P : nat -> Prop) `{!forall i, Decision (P i)}
    (a b n : nat) :
  (forall i, (i < n)%nat -> P i <-> (a <= i < b)%nat) ->
  length (filter P (seq 0 n)) = (Nat.min b n - Nat.min a n)%nat.
Proof.
  induction n as [|n IH]; intros HP; [cbn; lia|].
  rewrite seq_S, filter_app, length_app, IH
    by (intros i Hi; apply HP; lia).
  cbn [Nat.add].
  destruct (decide (P n)) as [Hn|Hn].
  - rewrite filter_cons_True by exact Hn. apply HP in Hn; [|lia]. cbn. lia.
  - rewrite filter_cons_False by exact Hn. rewrite HP in Hn by lia. cbn. lia.
Qed.

Lemma INR_10 : INR 10 = 10.
Proof. rewrite INR_IZR_INZ. reflexivity. Qed.

(** A comparison of [i / c] with a number of tenths is a comparison of
    natural numbers. *)
Lemma frac_lt_nat (p i c : nat) :
  (0 < c)%nat -> INR i / INR c < INR p / 10 <-> (10 * i < p * c)%nat.
Proof.
  intros Hc. assert (Hpos : 0 < INR c) by (by apply (lt_INR 0)).
  assert (Hmul : INR i / INR c < INR p / 10 <-> 10 * INR i < INR p * INR c).
  { split; intros H.
    - apply (Rmult_lt_compat_r (INR c)) in H; [|exact Hpos].
      replace (INR i / INR c * INR c) with (INR i) in H by (field; lra).
      lra.
    - apply (Rmult_lt_reg_r (INR c)); [exact Hpos|].
      replace (INR i / INR c * INR c) with (INR i) by (field; lra).
      lra. }
  rewrite Hmul, <- INR_10, <- !mult_INR.
  split; [apply INR_lt | apply lt_INR].
Qed.

(** The smallest index not below [p] tenths of [c]. *)
Lemma tenths_cut (p i c : nat) :
  (10 * i < p * c)%nat <-> (i < (p * c + 9) / 10)%nat.
Proof.
  pose proof (Nat.div_mod_eq (p * c + 9) 10) as Hd.
  pose proof (Nat.mod_upper_bound (p * c + 9) 10) as Hm.
  lia.
Qed.

Lemma saturn_sphere_nat count i :
  (0 < count)%nat ->
  saturn_branch count i = Sphere <-> (i < (6 * count + 9) / 10)%nat.
Proof.
  intros Hc. rewrite saturn_branch_sphere, <- tenths_cut, <- frac_lt_nat by done.
  assert (Hpos : 0 < INR count) by (by apply (lt_INR 0)).
  replace (INR 6 / 10) with 0.6 by (cbn [INR]; lra).
  split.
  - intros H.
    apply (Rmult_lt_reg_r (INR count)); [exact Hpos|].
    replace (INR i / INR count * INR count) with (INR i) by (field; lra).
    lra.
  - intros H.
    apply (Rmult_lt_compat_r (INR count)) in H; [|exact Hpos].
    replace (INR i / INR count * INR count) with (INR i) in H by (field; lra).
    lra.
Qed.

Lemma saturn_ring_nat count i :
  (0 < count)%nat ->
  saturn_branch count i = Ring <-> ((6 * count + 9) / 10 <= i)%nat.
Proof.
  intros Hc. pose proof (saturn_sphere_nat count i Hc) as Hs.
  destruct (saturn_branch count i); split; intros H; try done.
  - assert (i < (6 * count + 9) / 10)%nat by (by apply Hs). lia.
  - apply Nat.le_ngt. intros Hlt.
    assert (Ring = Sphere) by (apply Hs; lia). done.
Qed.

Lemma buddha_branch_nat count i :
  (0 < count)%nat ->
  (buddha_branch count i = HeadTorso
   <-> (i < (3 * count + 9) / 10)%nat)
  /\ (buddha_branch count i = CrossedLegs
      <-> ((3 * count + 9) / 10 <= i < (7 * count + 9) / 10)%nat)
  /\ (buddha_branch count i = Aura
      <-> ((7 * count + 9) / 10 <= i)%nat).
Proof.
  intros Hc.
  pose proof (frac_lt_nat 3 i count Hc) as H3.
  pose proof (frac_lt_nat 7 i count Hc) as H7.
  rewrite tenths_cut in H3, H7.
  replace (INR 3 / 10) with 0.3 in H3 by (cbn [INR]; lra).
  replace (INR 7 / 10) with 0.7 in H7 by (cbn [INR]; lra).
  fold (segment count i) in H3, H7.
  pose proof (tenths_cut 3 i count) as T3.
  pose proof (tenths_cut 7 i count) as T7.
  unfold buddha_branch.
  destruct (Rlt_dec (segment count i) 0.3) as [L3|L3];
    [|destruct (Rlt_dec (segment count i) 0.7) as [L7|L7]];
    rewrite ?H3, ?H7 in *;
    (split; [|split]); split; intros H; try done; try lia.
Qed.

Lemma Int_part_tenths (m : Z) : Int_part (IZR m / 10) = (m / 10)%Z.
Proof.
  symmetry. apply Int_part_spec.
  pose proof (Z.div_mod m 10 ltac:(lia)) as Hd.
  pose proof (Z.mod_pos_bound m 10 ltac:(lia)) as [Hlo Hhi].
  set (q := (m / 10)%Z) in *. set (r := (m mod 10)%Z) in *.
  apply IZR_le in Hlo. apply IZR_lt in Hhi.
  assert (Hm : IZR m = 10 * IZR q + IZR r)
    by (rewrite Hd, plus_IZR, mult_IZR; reflexivity).
  rewrite Hm. lra.
Qed.

(** [floor (count * (p / 10))], computed on integers. *)
Lemma floor_tenths (p : Z) (count : nat) :
  floor (INR count * (IZR p / 10)) = (p * Z.of_nat count / 10)%Z.
Proof.
  unfold floor. rewrite <- Int_part_tenths, mult_IZR, <- INR_IZR_INZ.
  f_equal. lra.
Qed.

Lemma saturn_routed_length count :
  (0 < count)%nat ->
  length (saturn_routed count Sphere) = ((6 * count + 9) / 10)%nat
  /\ length (saturn_routed count Ring)
     = (count - (6 * count + 9) / 10)%nat
  /\ ((6 * count + 9) / 10 <= count)%nat.
Proof.
  intros Hc.
  pose proof (Nat.div_mod_eq (6 * count + 9) 10) as Hd.
  pose proof (Nat.mod_upper_bound (6 * count + 9) 10) as Hm.
  assert (Hk : ((6 * count + 9) / 10 <= count)%nat) by lia.
  unfold saturn_routed. split; [|split; [|exact Hk]].
  - rewrite (length_filter_interval _ 0 ((6 * count + 9) / 10) count).
    + lia.
    + intros i _. rewrite saturn_sphere_nat by done. lia.
  - rewrite (length_filter_interval _ ((6 * count + 9) / 10) count count).
    + lia.
    + intros i Hi. rewrite saturn_ring_nat by done. lia.
Qed.

Lemma buddha_routed_length count :
  (0 < count)%nat ->
  length (buddha_routed count HeadTorso) = ((3 * count + 9) / 10)%nat
  /\ length (buddha_routed count CrossedLegs)
     = ((7 * count + 9) / 10 - (3 * count + 9) / 10)%nat
  /\ length (buddha_routed count Aura)
     = (count - (7 * count + 9) / 10)%nat
  /\ ((3 * count + 9) / 10 <= (7 * count + 9) / 10 <= count)%nat.
Proof.
  intros Hc.
  pose proof (Nat.div_mod_eq (3 * count + 9) 10) as Hd3.
  pose proof (Nat.mod_upper_bound (3 * count + 9) 10) as Hm3.
  pose proof (Nat.div_mod_eq (7 * count + 9) 10) as Hd7.
  pose proof (Nat.mod_upper_bound (7 * count + 9) 10) as Hm7.
  assert (Hk : ((3 * count + 9) / 10 <= (7 * count + 9) / 10 <= count)%nat)
    by lia.
  unfold buddha_routed. split; [|split; [|split; [|exact Hk]]].
  - rewrite (length_filter_interval _ 0 ((3 * count + 9) / 10) count).
    + lia.
    + intros i _. rewrite (proj1 (buddha_branch_nat count i Hc)). lia.
  - rewrite (length_filter_interval _ ((3 * count + 9) / 10)
               ((7 * count + 9) / 10) count).
    + lia.
    + intros i _. rewrite (proj1 (proj2 (buddha_branch_nat count i Hc))).
      lia.
  - rewrite (length_filter_interval _ ((7 * count + 9) / 10) count count).
    + lia.
    + intros i Hi. rewrite (proj2 (proj2 (buddha_branch_nat count i Hc))).
      lia.
Qed.

Lemma routed_unique {B : Type} `{!EqDecision B} (branch : nat -> B)
    (count i : nat) :
  (i < count)%nat ->
  exists! b, i ∈ filter (fun j => branch j = b) (seq 0 count).
Proof.
  intros Hi. exists (branch i). split.
  - apply list_elem_of_filter. split; [reflexivity|].
    apply elem_of_seq. lia.
  - intros b Hb. apply list_elem_of_filter in Hb as [Hb _]. exact Hb.
Qed.

Lemma saturn_routed_elem count i b :
  i ∈ saturn_routed count b <-> saturn_branch count i = b /\ (i < count)%nat.
Proof.
  unfold saturn_routed. rewrite list_elem_of_filter, elem_of_seq.
  split; intros [H1 H2]; (split; [exact H1 | lia]).
Qed.

Lemma buddha_routed_elem count i b :
  i ∈ buddha_routed count b <-> buddha_branch count i = b /\ (i < count)%nat.
Proof.
  unfold buddha_routed. rewrite list_elem_of_filter, elem_of_seq.
  split; intros [H1 H2]; (split; [exact H1 | lia]).
Qed.

(** The number of values drawn by a run of the loop is the sum of what
    each iteration draws. *)
Lemma draws_sum random type count (d : nat -> nat) :
  (forall j k, snd (point random type count j k) = (k + d j)%nat) ->
  forall l st,
    snd (foldl (generate_step random type count) st l)
    = (snd st + sum_list (d <$> l))%nat.
Proof.
  intros Hd l. induction l as [|j l IH]; intros st; cbn [foldl fmap list_fmap sum_list sum_list_with].
  - lia.
  - rewrite IH.
    assert (Hs : snd (generate_step random type count st j)
                 = (snd st + d j)%nat).
    { unfold generate_step.
      pose proof (Hd j (snd st)) as H.
      destruct (point random type count j (snd st)) as [q k']. exact H. }
    rewrite Hs. cbn. lia.
Qed.

Lemma saturn_draws random count j k :
  snd (point random "SATURN" count j k)
  = (k + match saturn_branch count j with Sphere => 0 | Ring => 3 end)%nat.
Proof.
  destruct (saturn_branch count j) eqn:Hb.
  - rewrite (point_saturn_sphere random count j k Hb). cbn [snd]. lia.
  - rewrite (point_saturn_ring random count j k Hb). cbn [snd]. lia.
Qed.

Lemma buddha_draws random count j k :
  snd (point random "BUDDHA" count j k)
  = (k + match buddha_branch count j with
         | HeadTorso => 2 | CrossedLegs => 1 | Aura => 2
         end)%nat.
Proof.
  destruct (buddha_branch count j) eqn:Hb.
  - rewrite (point_buddha_torso random count j k Hb). cbn [snd]. lia.
  - rewrite (point_buddha_legs random count j k Hb). cbn [snd]. lia.
  - rewrite (point_buddha_aura random count j k Hb). cbn [snd]. lia.
Qed.

Lemma saturn_draws_sum count l :
  sum_list ((fun j => match saturn_branch count j with
                      | Sphere => 0 | Ring => 3
                      end)%nat <$> l)
  = (3 * length (filter (fun j => saturn_branch count j = Ring) l))%nat.
Proof.
  induction l as [|j l IH]; [reflexivity|].
  cbn [fmap list_fmap sum_list sum_list_with]. fold (sum_list ((fun j => match saturn_branch count j with
                      | Sphere => 0 | Ring => 3
                      end)%nat <$> l)).
  rewrite filter_cons. rewrite IH. unfold Datatypes.id.
  destruct (saturn_branch count j) eqn:Hb.
  - destruct (decide (Sphere = Ring)) as [H|_]; [discriminate H|]. lia.
  - destruct (decide (Ring = Ring)) as [_|H]; [|done]. cbn [length]. lia.
Qed.

Lemma buddha_draws_sum count l :
  sum_list ((fun j => match buddha_branch count j with
                      | HeadTorso => 2 | CrossedLegs => 1 | Aura => 2
                      end)%nat <$> l)
  = (2 * length (filter (fun j => buddha_branch count j = HeadTorso) l)
     + length (filter (fun j => buddha_branch count j = CrossedLegs) l)
     + 2 * length (filter (fun j => buddha_branch count j = Aura) l))%nat.
Proof.
  induction l as [|j l IH]; [reflexivity|].
  cbn [fmap list_fmap sum_list sum_list_with]. fold (sum_list ((fun j => match buddha_branch count j with
                      | HeadTorso => 2 | CrossedLegs => 1 | Aura => 2
                      end)%nat <$> l)).
  rewrite !filter_cons, IH. unfold Datatypes.id.
  destruct (buddha_branch count j) eqn:Hb;
    repeat case_decide; try done; cbn [length]; lia.
Qed.

(** C7.  For [count > 0], [generatePositions] routes every index
    [0 <= i < count] of the SATURN case (fractions 0.6 / 0.4) and of the
    BUDDHA case (fractions 0.3 / 0.4 / 0.3) to exactly one branch: the
    point it stores for [i] is the one computed by the branch that the
    index test selects, and the values it draws from the random source are
    those of the branches taken (3 per ring point; 2 per head/torso point,
    1 per leg point, 2 per aura point).  The branches together receive
    exactly [count] indices, and the number of indices of each branch is
    within one of [floor (count * fraction)]. *)
Theorem generate_partition random count :
  (0 < count)%nat ->
  let near (n : nat) (z : Z) := (Z.abs (Z.of_nat n - z) <= 1)%Z in
  let Sat k := generatePositions random "SATURN" count !! k in
  let Bud k := generatePositions random "BUDDHA" count !! k in
  (forall i, (i < count)%nat ->
     (exists! b, i ∈ saturn_routed count b)
     /\ (i ∈ saturn_routed count Sphere ->
         Sat (i * 3)%nat
         = Some (10 * sin (phi count i) * cos (theta count i))
         /\ Sat (i * 3 + 1)%nat
            = Some (10 * sin (phi count i) * sin (theta count i))
         /\ Sat (i * 3 + 2)%nat = Some (10 * cos (phi count i)))
     /\ (i ∈ saturn_routed count Ring ->
         exists k,
           Sat (i * 3)%nat
           = Some ((14 + (22 - 14) * random k) * cos (random (k + 1)%nat * PI * 2))
           /\ Sat (i * 3 + 1)%nat = Some ((random (k + 2)%nat - 0.5) * 0.5)
           /\ Sat (i * 3 + 2)%nat
              = Some ((14 + (22 - 14) * random k)
                      * sin (random (k + 1)%nat * PI * 2))))
  /\ draws random "SATURN" count
     = (3 * length (saturn_routed count Ring))%nat
  /\ (length (saturn_routed count Sphere) + length (saturn_routed count Ring)
      = count)%nat
  /\ near (length (saturn_routed count Sphere)) (floor (INR count * 0.6))
  /\ near (length (saturn_routed count Ring)) (floor (INR count * 0.4))
  /\ (forall i, (i < count)%nat ->
        (exists! b, i ∈ buddha_routed count b)
        /\ (i ∈ buddha_routed count HeadTorso ->
            exists k,
              Bud (i * 3)%nat = Some ((random k - 0.5) * 6)
              /\ Bud (i * 3 + 1)%nat = Some (INR i / INR count * 20 - 5)
              /\ Bud (i * 3 + 2)%nat = Some ((random (k + 1)%nat - 0.5) * 4))
        /\ (i ∈ buddha_routed count CrossedLegs ->
            exists k,
              Bud (i * 3)%nat
              = Some (sin ((INR i / INR count - 0.3) * 10) * 12)
              /\ Bud (i * 3 + 1)%nat = Some (-10 + random k * 2)
              /\ Bud (i * 3 + 2)%nat
                 = Some (cos ((INR i / INR count - 0.3) * 10) * 8))
        /\ (i ∈ buddha_routed count Aura ->
            exists k,
              Bud (i * 3)%nat
              = Some ((15 + random k * 5) * cos (random (k + 1)%nat * PI))
              /\ Bud (i * 3 + 1)%nat
                 = Some ((15 + random k * 5) * sin (random (k + 1)%nat * PI)
                         - 5)
              /\ Bud (i * 3 + 2)%nat = Some (-5)))
  /\ draws random "BUDDHA" count
     = (2 * length (buddha_routed count HeadTorso)
        + length (buddha_routed count CrossedLegs)
        + 2 * length (buddha_routed count Aura))%nat
  /\ (length (buddha_routed count HeadTorso)
      + length (buddha_routed count CrossedLegs)
      + length (buddha_routed count Aura) = count)%nat
  /\ near (length (buddha_routed count HeadTorso)) (floor (INR count * 0.3))
  /\ near (length (buddha_routed count CrossedLegs))
       (floor (INR count * 0.4))
  /\ near (length (buddha_routed count Aura)) (floor (INR count * 0.3)).
Proof.
  intros Hc near Sat Bud.
  destruct (saturn_routed_length count Hc) as (Ss & Sr & Sk).
  destruct (buddha_routed_length count Hc) as (Bt & Bl & Ba & Bk).
  assert (F6 : floor (INR count * 0.6) = (6 * Z.of_nat count / 10)%Z)
    by (rewrite <- floor_tenths; f_equal; lra).
  assert (F4 : floor (INR count * 0.4) = (4 * Z.of_nat count / 10)%Z)
    by (rewrite <- floor_tenths; f_equal; lra).
  assert (F3 : floor (INR count * 0.3) = (3 * Z.of_nat count / 10)%Z)
    by (rewrite <- floor_tenths; f_equal; lra).
  pose proof (Nat.div_mod_eq (6 * count + 9) 10) as Hd6.
  pose proof (Nat.mod_upper_bound (6 * count + 9) 10) as Hm6.
  pose proof (Nat.div_mod_eq (3 * count + 9) 10) as Hd3.
  pose proof (Nat.mod_upper_bound (3 * count + 9) 10) as Hm3.
  pose proof (Nat.div_mod_eq (7 * count + 9) 10) as Hd7.
  pose proof (Nat.mod_upper_bound (7 * count + 9) 10) as Hm7.
  pose proof (Z.div_mod (6 * Z.of_nat count) 10 ltac:(lia)) as Zd6.
  pose proof (Z.mod_pos_bound (6 * Z.of_nat count) 10 ltac:(lia)) as Zm6.
  pose proof (Z.div_mod (4 * Z.of_nat count) 10 ltac:(lia)) as Zd4.
  pose proof (Z.mod_pos_bound (4 * Z.of_nat count) 10 ltac:(lia)) as Zm4.
  pose proof (Z.div_mod (3 * Z.of_nat count) 10 ltac:(lia)) as Zd3.
  pose proof (Z.mod_pos_bound (3 * Z.of_nat count) 10 ltac:(lia)) as Zm3.
  split.
  { intros i Hi. split; [apply routed_unique; exact Hi|].
    destruct (generatePositions_at random "SATURN" count i Hi)
      as (k & x & y & z & Hp & Hx & Hy & Hz).
    split.
    - intros Hin. apply saturn_routed_elem in Hin as [Hb _].
      rewrite (point_saturn_sphere random count i k Hb) in Hp.
      cbn [fst] in Hp. injection Hp as <- <- <-. done.
    - intros Hin. apply saturn_routed_elem in Hin as [Hb _].
      rewrite (point_saturn_ring random count i k Hb) in Hp.
      cbn [fst] in Hp. injection Hp as <- <- <-.
      exists k. replace (k + 1)%nat with (S k) by lia.
      replace (k + 2)%nat with (S (S k)) by lia. done. }
  split.
  { unfold draws.
    rewrite (draws_sum random "SATURN" count _ (saturn_draws random count)).
    rewrite saturn_draws_sum. reflexivity. }
  split; [rewrite Ss, Sr; lia|].
  split; [unfold near; rewrite Ss, F6; lia|].
  split; [unfold near; rewrite Sr, F4; lia|].
  split.
  { intros i Hi. split; [apply routed_unique; exact Hi|].
    destruct (generatePositions_at random "BUDDHA" count i Hi)
      as (k & x & y & z & Hp & Hx & Hy & Hz).
    split; [|split].
    - intros Hin. apply buddha_routed_elem in Hin as [Hb _].
      rewrite (point_buddha_torso random count i k Hb) in Hp.
      cbn [fst] in Hp. injection Hp as <- <- <-.
      exists k. replace (k + 1)%nat with (S k) by lia. done.
    - intros Hin. apply buddha_routed_elem in Hin as [Hb _].
      rewrite (point_buddha_legs random count i k Hb) in Hp.
      cbn [fst] in Hp. injection Hp as <- <- <-.
      exists k. done.
    - intros Hin. apply buddha_routed_elem in Hin as [Hb _].
      rewrite (point_buddha_aura random count i k Hb) in Hp.
      cbn [fst] in Hp. injection Hp as <- <- <-.
      exists k. replace (k + 1)%nat with (S k) by lia. done. }
  split.
  { unfold draws.
    rewrite (draws_sum random "BUDDHA" count _ (buddha_draws random count)).
    rewrite buddha_draws_sum. reflexivity. }
  split; [rewrite Bt, Bl, Ba; lia|].
  unfold near. rewrite Bt, Bl, Ba, F4, F3.
  repeat split; lia.
Qed.

(** C7 for ten points and every draw equal to 0.5: six on the sphere and
    four on the ring, with twelve values drawn; three, four and three in
    the segments of BUDDHA. *)
Lemma generate_partition_witness :
  (length (saturn_routed 10 Sphere) + length (saturn_routed 10 Ring) = 10)%nat
  /\ (Z.abs (Z.of_nat (length (saturn_routed 10 Sphere))
             - floor (INR 10 * 0.6)) <= 1)%Z
  /\ draws (fun _ => 0.5) "SATURN" 10
     = (3 * length (saturn_routed 10 Ring))%nat
  /\ (length (buddha_routed 10 HeadTorso)
      + length (buddha_routed 10 CrossedLegs)
      + length (buddha_routed 10 Aura) = 10)%nat.
Proof.
  destruct (generate_partition (fun _ => 0.5) 10 ltac:(lia))
    as (_ & Hd & Hs & Hn & _ & _ & _ & Hb & _).
  split; [exact Hs|]. split; [exact Hn|]. split; [exact Hd | exact Hb].
Defined.

(** * Further properties of the generator *)

Section GeneratorDraws.

Variable random : nat -> R.

(** Point [i] of the result, with the number of values drawn before
    iteration [i] made explicit. *)
Lemma generatePositions_at_draw type count i x y z :
  (i < count)%nat ->
  fst (point random type count i
         (snd (foldl (generate_step random type count)
                 (replicate (count * 3) 0, 0%nat) (seq 0 i))))
  = (x, y, z) ->
  generatePositions random type count !! (i * 3)%nat = Some x
  /\ generatePositions random type count !! (i * 3 + 1)%nat = Some y
  /\ generatePositions random type count !! (i * 3 + 2)%nat = Some z.
Proof.
  intros Hi Hp. unfold generatePositions.
  set (f := generate_step random type count).
  set (s0 := (replicate (count * 3) 0, 0%nat)).
  assert (Hother : forall s j k, (k < j * 3 \/ j * 3 + 3 <= k)%nat ->
                                 fst (f s j) !! k = fst s !! k).
  { intros s j k Hk. unfold f. rewrite generate_step_fst.
    by apply store_point_other. }
  assert (Hl : forall s j, length (fst (f s j)) = length (fst s)).
  { intros s j. unfold f. rewrite generate_step_fst.
    apply length_store_point. }
  fold f s0 in Hp. set (before := foldl f s0 (seq 0 i)) in *.
  assert (Hlb : (i * 3 + 2 < length (fst before))%nat).
  { unfold before. rewrite (loop_length fst f Hl).
    cbn. rewrite length_replicate. lia. }
  rewrite !(loop_at fst f Hother count i s0) by lia.
  fold before. unfold f. rewrite generate_step_fst, Hp.
  by apply store_point_at.
Qed.

Lemma generate_step_snd type count st i :
  snd (generate_step random type count st i)
  = snd (point random type count i (snd st)).
Proof.
  unfold generate_step.
  destruct (point random type count i (snd st)) as [p n']. reflexivity.
Qed.

(** A template that draws [d] values per point has drawn [d * i] values
    before iteration [i]. *)
Lemma draws_before type count d :
  (forall j k, snd (point random type count j k) = (k + d)%nat) ->
  forall n a st,
    snd (foldl (generate_step random type count) st (seq a n))
    = (snd st + d * n)%nat.
Proof.
  intros Hd n. induction n as [|n IH]; intros a st; cbn [seq foldl].
  - lia.
  - rewrite IH, generate_step_snd, Hd. lia.
Qed.

End GeneratorDraws.

(** X1.  Whatever the template string, the count and the random values,
    [generatePositions] returns exactly [3 * count] numbers: every slot
    below [3 * count] holds a value and there is none beyond; for
    [count = 0] the array is empty. *)
Theorem generate_length random type count :
  length (generatePositions random type count) = (3 * count)%nat
  /\ (forall k, (k < 3 * count)%nat ->
        exists v, generatePositions random type count !! k = Some v)
  /\ (forall k, (3 * count <= k)%nat ->
        generatePositions random type count !! k = None)
  /\ generatePositions random type 0 = [].
Proof.
  pose proof (length_generatePositions random type count) as Hl.
  split; [lia|]. split; [|split].
  - intros k Hk. apply lookup_lt_is_Some. lia.
  - intros k Hk. apply lookup_ge_None. lia.
  - reflexivity.
Qed.

(** ** HEART *)

Lemma point_heart random count i k :
  point random "HEART" count i k
  = ((16 * sin (random k * PI * 2) ^ 3 * 0.5,
      (13 * cos (random k * PI * 2) - 5 * cos (2 * (random k * PI * 2))
       - 2 * cos (3 * (random k * PI * 2))
       - cos (4 * (random k * PI * 2))) * 0.5,
      (random (S k) - 0.5) * 5), S (S k)).
Proof. reflexivity. Qed.

Lemma cos_3a a : cos (3 * a) = 4 * cos a ^ 3 - 3 * cos a.
Proof.
  replace (3 * a) with (2 * a + a) by ring.
  rewrite cos_plus, cos_2a_cos, sin_2a.
  pose proof (sin2_cos2 a) as H. unfold Rsqr in H.
  replace (2 * sin a * cos a * sin a)
    with (2 * cos a * (sin a * sin a)) by ring.
  replace (sin a * sin a) with (1 - cos a * cos a) by lra. ring.
Qed.

Lemma cos_4a a : cos (4 * a) = 8 * cos a ^ 4 - 8 * cos a ^ 2 + 1.
Proof.
  replace (4 * a) with (2 * (2 * a)) by ring.
  rewrite cos_2a_cos, cos_2a_cos. ring.
Qed.

(** The heart curve's height as a polynomial in [cos a]. *)
Lemma heart_y_poly a :
  13 * cos a - 5 * cos (2 * a) - 2 * cos (3 * a) - cos (4 * a)
  = - 8 * cos a ^ 4 - 8 * cos a ^ 3 - 2 * cos a ^ 2 + 19 * cos a + 4.
Proof. rewrite cos_2a_cos, cos_3a, cos_4a. ring. Qed.

Lemma heart_y_bounds a :
  -17 <= 13 * cos a - 5 * cos (2 * a) - 2 * cos (3 * a) - cos (4 * a) <= 13.
Proof.
  rewrite heart_y_poly. pose proof (COS_bound a) as [Hlo Hhi].
  set (c := cos a) in *. split.
  - assert (H3 : c ^ 3 <= 1) by nra.
    assert (Hq : 0 <= (c + 1) * (21 - 8 * c ^ 3 - 2 * c)).
    { apply Rmult_le_pos; lra. }
    nra.
  - assert (Hq : 0 <= 8 * c ^ 2 + (88 / 5) * c + (506 / 25)) by nra.
    assert (Ht : 0 <= (c - 3 / 5) ^ 2
                      * (8 * c ^ 2 + (88 / 5) * c + (506 / 25))).
    { apply Rmult_le_pos; [apply pow2_ge_0 | exact Hq]. }
    nra.
Qed.

(** X2.  In [generatePositions "HEART" count], point [i] is computed from
    the draws number [2 i] and [2 i + 1]: with [a = 2 PI u] it is the point
    [(8 sin^3 a, (13 cos a - 5 cos 2a - 2 cos 3a - cos 4a) / 2)] of the heart
    curve at depth [z = 5 (v - 0.5)], and it lies in the box
    [-8 <= x <= 8], [-8.5 <= y <= 6.5], [-2.5 <= z < 2.5]. *)
Theorem generate_heart random count i :
  (forall k, 0 <= random k < 1) ->
  (i < count)%nat ->
  let P := generatePositions random "HEART" count in
  let a := random (2 * i)%nat * PI * 2 in
  let x := 16 * sin a ^ 3 * 0.5 in
  let y := (13 * cos a - 5 * cos (2 * a) - 2 * cos (3 * a) - cos (4 * a))
           * 0.5 in
  let z := (random (2 * i + 1)%nat - 0.5) * 5 in
  P !! (i * 3)%nat = Some x
  /\ P !! (i * 3 + 1)%nat = Some y
  /\ P !! (i * 3 + 2)%nat = Some z
  /\ -8 <= x <= 8
  /\ -8.5 <= y <= 6.5
  /\ -2.5 <= z < 2.5.
Proof.
  intros Hrand Hi P a x y z.
  assert (Hk : snd (foldl (generate_step random "HEART" count)
                      (replicate (count * 3) 0, 0%nat) (seq 0 i))
               = (2 * i)%nat).
  { rewrite (draws_before random "HEART" count 2); [reflexivity|].
    intros j k. rewrite point_heart. cbn [snd]. lia. }
  destruct (generatePositions_at_draw random "HEART" count i x y z Hi)
    as (Hx & Hy & Hz).
  { rewrite Hk, point_heart. cbn [fst].
    replace (S (2 * i)) with (2 * i + 1)%nat by lia. reflexivity. }
  split; [exact Hx|]. split; [exact Hy|]. split; [exact Hz|].
  pose proof (SIN_bound a) as [Hs1 Hs2].
  pose proof (heart_y_bounds a) as [Hy1 Hy2].
  pose proof (Hrand (2 * i + 1)%nat) as Hv.
  assert (Hs3 : -1 <= sin a ^ 3 <= 1) by nra.
  subst x y z. repeat split; lra.
Qed.

(** X2 with every draw equal to 0.5 and three points, point 1. *)
Lemma generate_heart_witness :
  exists x y z,
    generatePositions (fun _ => 0.5) "HEART" 3 !! 3%nat = Some x
    /\ generatePositions (fun _ => 0.5) "HEART" 3 !! 4%nat = Some y
    /\ generatePositions (fun _ => 0.5) "HEART" 3 !! 5%nat = Some z
    /\ -8 <= x <= 8 /\ -8.5 <= y <= 6.5 /\ -2.5 <= z < 2.5.
Proof.
  assert (Hr : forall k : nat, 0 <= 0.5 < 1) by (intros _; lra).
  destruct (generate_heart (fun _ => 0.5) 3 1 Hr ltac:(lia))
    as (Hx & Hy & Hz & Bx & By & Bz).
  eexists _, _, _.
  split; [exact Hx|]. split; [exact Hy|]. split; [exact Hz|].
  split; [exact Bx|]. split; [exact By | exact Bz].
Defined.

(** ** FIREWORKS *)

Lemma point_fireworks random count i k :
  point random "FIREWORKS" count i k
  = ((sqrt (random k) * 20 * sin (phi count i) * cos (theta count i),
      sqrt (random k) * 20 * sin (phi count i) * sin (theta count i),
      sqrt (random k) * 20 * cos (phi count i)), S k).
Proof. reflexivity. Qed.

(** X3.  In [generatePositions "FIREWORKS" count], point [i] is computed
    from the draw number [i] alone and lies at distance [20 * sqrt u] from
    the origin, in the direction of angles [phi], [theta]: its squared
    distance is [400 u], so every point is strictly inside the ball of
    radius 20. *)
Theorem generate_fireworks random count i :
  (forall k, 0 <= random k < 1) ->
  (i < count)%nat ->
  let P := generatePositions random "FIREWORKS" count in
  let r := sqrt (random i) * 20 in
  exists x y z,
    P !! (i * 3)%nat = Some x
    /\ P !! (i * 3 + 1)%nat = Some y
    /\ P !! (i * 3 + 2)%nat = Some z
    /\ x = r * sin (phi count i) * cos (theta count i)
    /\ y = r * sin (phi count i) * sin (theta count i)
    /\ z = r * cos (phi count i)
    /\ x ^ 2 + y ^ 2 + z ^ 2 = 400 * random i
    /\ sqrt (x ^ 2 + y ^ 2 + z ^ 2) = r
    /\ 0 <= r < 20.
Proof.
  intros Hrand Hi P r.
  assert (Hk : snd (foldl (generate_step random "FIREWORKS" count)
                      (replicate (count * 3) 0, 0%nat) (seq 0 i)) = i).
  { rewrite (draws_before random "FIREWORKS" count 1); [cbn; lia|].
    intros j k. rewrite point_fireworks. cbn [snd]. lia. }
  eexists _, _, _.
  destruct (generatePositions_at_draw random "FIREWORKS" count i
              _ _ _ Hi ltac:(rewrite Hk, point_fireworks; reflexivity))
    as (Hx & Hy & Hz).
  split; [exact Hx|]. split; [exact Hy|]. split; [exact Hz|].
  fold r. split; [reflexivity|]. split; [reflexivity|].
  split; [reflexivity|].
  pose proof (Hrand i) as [Hu0 Hu1].
  assert (Hr0 : 0 <= r).
  { unfold r. apply Rmult_le_pos; [apply sqrt_pos | lra]. }
  assert (Hr2 : r ^ 2 = 400 * random i).
  { unfold r. replace ((sqrt (random i) * 20) ^ 2)
      with (400 * (sqrt (random i) * sqrt (random i))) by ring.
    rewrite sqrt_sqrt by exact Hu0. reflexivity. }
  rewrite on_sphere.
  split; [exact Hr2|].
  split; [rewrite <- (sqrt_pow2 r Hr0) at 2; reflexivity|].
  split; [exact Hr0|].
  unfold r. assert (sqrt (random i) < 1).
  { rewrite <- sqrt_1. apply sqrt_lt_1; lra. }
  lra.
Qed.

(** X3 with every draw equal to 0.5 and four points, point 2. *)
Lemma generate_fireworks_witness :
  exists x y z,
    generatePositions (fun _ => 0.5) "FIREWORKS" 4 !! 6%nat = Some x
    /\ generatePositions (fun _ => 0.5) "FIREWORKS" 4 !! 7%nat = Some y
    /\ generatePositions (fun _ => 0.5) "FIREWORKS" 4 !! 8%nat = Some z
    /\ x ^ 2 + y ^ 2 + z ^ 2 = 400 * 0.5.
Proof.
  assert (Hr : forall k : nat, 0 <= 0.5 < 1) by (intros _; lra).
  destruct (generate_fireworks (fun _ => 0.5) 4 2 Hr ltac:(lia))
    as (x & y & z & Hx & Hy & Hz & _ & _ & _ & Hs & _).
  exists x, y, z.
  split; [exact Hx|]. split; [exact Hy|]. split; [exact Hz | exact Hs].
Defined.

(** ** BUDDHA: crossed legs and aura *)

(** X4.  In [generatePositions "BUDDHA" count], every index [i] with
    [0.3 <= i / count < 0.7] yields a point of the ellipse
    [(x / 12)^2 + (z / 8)^2 = 1] at the parameter
    [legT = (i / count - 0.3) * 10], which lies in [0, 4), with a height
    [y = -10 + 2 u] in [-10, -8) taken from one draw [u]. *)
Theorem generate_buddha_legs random count i :
  (forall k, 0 <= random k < 1) ->
  (i < count)%nat ->
  0.3 <= INR i / INR count < 0.7 ->
  let P := generatePositions random "BUDDHA" count in
  let legT := (INR i / INR count - 0.3) * 10 in
  exists k,
    P !! (i * 3)%nat = Some (sin legT * 12)
    /\ P !! (i * 3 + 1)%nat = Some (-10 + random k * 2)
    /\ P !! (i * 3 + 2)%nat = Some (cos legT * 8)
    /\ 0 <= legT < 4
    /\ (sin legT * 12 / 12) ^ 2 + (cos legT * 8 / 8) ^ 2 = 1
    /\ -10 <= -10 + random k * 2 < -8.
Proof.
  intros Hrand Hi Hseg P legT.
  destruct (generatePositions_at random "BUDDHA" count i Hi)
    as (k & x & y & z & Hp & Hx & Hy & Hz).
  assert (Hb : buddha_branch count i = CrossedLegs)
    by (apply buddha_branch_legs; unfold segment; lra).
  rewrite (point_buddha_legs random count i k Hb) in Hp.
  cbn [fst] in Hp. injection Hp as <- <- <-.
  exists k. split; [exact Hx|]. split; [exact Hy|]. split; [exact Hz|].
  split; [unfold legT; lra|].
  split.
  - pose proof (sin2_cos2 legT) as H. unfold Rsqr in H.
    replace ((sin legT * 12 / 12) ^ 2 + (cos legT * 8 / 8) ^ 2)
      with (sin legT * sin legT + cos legT * cos legT) by field.
    exact H.
  - pose proof (Hrand k). lra.
Qed.

(** X4 with every draw equal to 0.5, ten points, index 5. *)
Lemma generate_buddha_legs_witness :
  exists k,
    generatePositions (fun _ => 0.5) "BUDDHA" 10 !! 15%nat
    = Some (sin ((INR 5 / INR 10 - 0.3) * 10) * 12)
    /\ -10 <= -10 + (fun _ : nat => 0.5) k * 2 < -8.
Proof.
  assert (Hr : forall k : nat, 0 <= 0.5 < 1) by (intros _; lra).
  assert (Hs : 0.3 <= INR 5 / INR 10 < 0.7) by (cbn [INR]; lra).
  destruct (generate_buddha_legs (fun _ => 0.5) 10 5 Hr ltac:(lia) Hs)
    as (k & Hx & _ & _ & _ & _ & Hy).
  exists k. split; [exact Hx | exact Hy].
Defined.

(** X5.  In [generatePositions "BUDDHA" count], every index [i] with
    [i / count >= 0.7] yields a point of the plane [z = -5] on the upper
    half of a circle centred at [(0, -5)]: [x^2 + (y + 5)^2 = r^2] with
    [r = 15 + 5 u] in [15, 20) and [y >= -5], from two successive draws. *)
Theorem generate_buddha_aura random count i :
  (forall k, 0 <= random k < 1) ->
  (i < count)%nat ->
  0.7 <= INR i / INR count ->
  let P := generatePositions random "BUDDHA" count in
  exists k x y,
    let r := 15 + random k * 5 in
    let a := random (S k) * PI in
    P !! (i * 3)%nat = Some x
    /\ P !! (i * 3 + 1)%nat = Some y
    /\ P !! (i * 3 + 2)%nat = Some (-5)
    /\ x = r * cos a
    /\ y = r * sin a - 5
    /\ 15 <= r < 20
    /\ 0 <= a < PI
    /\ x ^ 2 + (y + 5) ^ 2 = r ^ 2
    /\ -5 <= y < 15.
Proof.
  intros Hrand Hi Hseg P.
  destruct (generatePositions_at random "BUDDHA" count i Hi)
    as (k & x & y & z & Hp & Hx & Hy & Hz).
  assert (Hb : buddha_branch count i = Aura)
    by (apply buddha_branch_aura; unfold segment; lra).
  rewrite (point_buddha_aura random count i k Hb) in Hp.
  cbn [fst] in Hp. injection Hp as <- <- <-.
  exists k. eexists _, _. cbv zeta.
  split; [exact Hx|]. split; [exact Hy|]. split; [exact Hz|].
  split; [reflexivity|]. split; [reflexivity|].
  pose proof (Hrand k) as Hu. pose proof (Hrand (S k)) as Hv.
  pose proof PI_RGT_0 as Hpi.
  set (r := 15 + random k * 5). set (a := random (S k) * PI).
  assert (Ha : 0 <= a < PI) by (unfold a; nra).
  assert (Hsin : 0 <= sin a) by (apply sin_ge_0; lra).
  pose proof (SIN_bound a) as [_ Hs1].
  pose proof (sin2_cos2 a) as H2. unfold Rsqr in H2.
  split; [unfold r; lra|]. split; [exact Ha|].
  split.
  - replace ((r * cos a) ^ 2 + (r * sin a - 5 + 5) ^ 2)
      with (r ^ 2 * (sin a * sin a + cos a * cos a)) by ring.
    rewrite H2. ring.
  - assert (15 <= r < 20) by (unfold r; lra). nra.
Qed.

(** X5 with every draw equal to 0.5, ten points, index 8. *)
Lemma generate_buddha_aura_witness :
  exists x y,
    generatePositions (fun _ => 0.5) "BUDDHA" 10 !! 24%nat = Some x
    /\ generatePositions (fun _ => 0.5) "BUDDHA" 10 !! 25%nat = Some y
    /\ generatePositions (fun _ => 0.5) "BUDDHA" 10 !! 26%nat = Some (-5)
    /\ -5 <= y < 15.
Proof.
  assert (Hr : forall k : nat, 0 <= 0.5 < 1) by (intros _; lra).
  assert (Hs : 0.7 <= INR 8 / INR 10) by (cbn [INR]; lra).
  destruct (generate_buddha_aura (fun _ => 0.5) 10 8 Hr ltac:(lia) Hs)
    as (k & x & y & Hx & Hy & Hz & _ & _ & _ & _ & _ & Hb).
  exists x, y. split; [exact Hx|]. split; [exact Hy|].
  split; [exact Hz | exact Hb].
Defined.

(** ** SATURN: latitude of the sphere points *)

Lemma unit_fraction count i :
  (i < count)%nat -> 0 <= INR i / INR count < 1.
Proof.
  intros Hi.
  assert (Hc : 0 < INR count) by (apply (lt_INR 0); lia).
  pose proof (pos_INR i) as H0. apply lt_INR in Hi.
  split.
  - apply Rmult_le_pos; [exact H0|]. left. by apply Rinv_0_lt_compat.
  - apply (Rmult_lt_reg_r (INR count)); [exact Hc|].
    replace (INR i / INR count * INR count) with (INR i) by (field; lra).
    lra.
Qed.

Lemma cos_phi count i :
  (i < count)%nat -> cos (phi count i) = -1 + 2 * INR i / INR count.
Proof.
  intros Hi. unfold phi. apply cos_acos.
  pose proof (unit_fraction count i Hi). lra.
Qed.

(** X6.  In [generatePositions "SATURN" count], the sphere points
    ([i < 0.6 * count]) are stacked in evenly spaced horizontal slices: the
    z coordinate of point [i] is [20 * i / count - 10], so it starts at the
    south pole [-10], grows by [20 / count] from one sphere point to the
    next and stays below 2. *)
Theorem generate_saturn_latitude random count i :
  (i < count)%nat ->
  INR i < 0.6 * INR count ->
  let P := generatePositions random "SATURN" count in
  P !! (i * 3 + 2)%nat = Some (20 * INR i / INR count - 10)
  /\ -10 <= 20 * INR i / INR count - 10 < 2
  /\ (INR (S i) < 0.6 * INR count ->
      exists z', P !! (S i * 3 + 2)%nat = Some z'
                 /\ z' - (20 * INR i / INR count - 10) = 20 / INR count).
Proof.
  intros Hi Hlt P.
  assert (Hc : 0 < INR count) by (apply (lt_INR 0); lia).
  assert (Hz : forall j, (j < count)%nat -> INR j < 0.6 * INR count ->
               P !! (j * 3 + 2)%nat = Some (20 * INR j / INR count - 10)).
  { intros j Hj Hjl.
    destruct (generatePositions_at random "SATURN" count j Hj)
      as (k & x & y & z & Hp & _ & _ & Hz).
    assert (Hb : saturn_branch count j = Sphere)
      by (apply saturn_branch_sphere; lra).
    rewrite (point_saturn_sphere random count j k Hb) in Hp.
    cbn [fst] in Hp. injection Hp as <- <- <-.
    subst P. rewrite Hz, cos_phi by exact Hj. f_equal. field. lra. }
  split; [by apply Hz|].
  pose proof (unit_fraction count i Hi) as Hf.
  split.
  - split; [unfold Rdiv in *; nra|].
    assert (INR i / INR count < 0.6).
    { apply (Rmult_lt_reg_r (INR count)); [exact Hc|].
      replace (INR i / INR count * INR count) with (INR i) by (field; lra).
      lra. }
    unfold Rdiv in *. nra.
  - intros Hs.
    assert (Hsi : (S i < count)%nat).
    { apply INR_lt. pose proof (pos_INR count). nra. }
    eexists. split; [by apply Hz|].
    rewrite S_INR. field. lra.
Qed.

(** X6 for ten points, point 2: z = 20 * 2 / 10 - 10. *)
Lemma generate_saturn_latitude_witness :
  generatePositions (fun _ => 0.5) "SATURN" 10 !! 8%nat
  = Some (20 * INR 2 / INR 10 - 10).
Proof.
  apply (generate_saturn_latitude (fun _ => 0.5) 10 2 ltac:(lia)).
  rewrite INR_10. cbn [INR]. lra.
Defined.

(** ** FLOWER: no randomness, bounded disc *)

(** X7.  Every point of [generatePositions "FLOWER" count] lies in the
    disc of radius 15 around the z axis, at distance exactly
    [15 * sqrt (i / count)] from it ([x^2 + y^2 = 225 * i / count]), and
    its height is between -2 and 2; the array does not depend on the random
    source, which the FLOWER case never calls. *)
Theorem generate_flower_disc random count i :
  (i < count)%nat ->
  let P := generatePositions random "FLOWER" count in
  exists x y z,
    P !! (i * 3)%nat = Some x
    /\ P !! (i * 3 + 1)%nat = Some y
    /\ P !! (i * 3 + 2)%nat = Some z
    /\ x ^ 2 + y ^ 2 = 225 * (INR i / INR count)
    /\ sqrt (x ^ 2 + y ^ 2) = flower_radius count i
    /\ 0 <= flower_radius count i < 15
    /\ -2 <= z <= 2
    /\ forall random', generatePositions random' "FLOWER" count = P.
Proof.
  intros Hi P.
  destruct (generatePositions_at random "FLOWER" count i Hi)
    as (k & x & y & z & Hp & Hx & Hy & Hz).
  rewrite point_flower in Hp. cbn [fst] in Hp. injection Hp as <- <- <-.
  eexists _, _, _.
  split; [exact Hx|]. split; [exact Hy|]. split; [exact Hz|].
  pose proof (unit_fraction count i Hi) as [Hf0 Hf1].
  set (r := flower_radius count i). set (a := flower_angle i).
  assert (Hs : 0 <= sqrt (INR i / INR count) < 1).
  { split; [apply sqrt_pos|]. rewrite <- sqrt_1. apply sqrt_lt_1; lra. }
  assert (Hr : 0 <= r < 15) by (unfold r, flower_radius; lra).
  assert (Hr2 : r ^ 2 = 225 * (INR i / INR count)).
  { unfold r, flower_radius.
    replace ((15 * sqrt (INR i / INR count)) ^ 2)
      with (225 * (sqrt (INR i / INR count) * sqrt (INR i / INR count)))
      by ring.
    rewrite sqrt_sqrt by exact Hf0. reflexivity. }
  pose proof (sin2_cos2 a) as H2. unfold Rsqr in H2.
  assert (Hxy : (r * cos a) ^ 2 + (r * sin a) ^ 2 = r ^ 2).
  { replace ((r * cos a) ^ 2 + (r * sin a) ^ 2)
      with (r ^ 2 * (sin a * sin a + cos a * cos a)) by ring.
    rewrite H2. ring. }
  split; [rewrite Hxy; exact Hr2|].
  split; [rewrite Hxy; apply sqrt_pow2; lra|].
  split; [exact Hr|].
  split; [pose proof (SIN_bound (r * 0.5)); lra|].
  intros random'. reflexivity.
Qed.

(** X7 for four points, point 1. *)
Lemma generate_flower_disc_witness :
  exists x y z,
    generatePositions (fun _ => 0.5) "FLOWER" 4 !! 3%nat = Some x
    /\ generatePositions (fun _ => 0.5) "FLOWER" 4 !! 4%nat = Some y
    /\ generatePositions (fun _ => 0.5) "FLOWER" 4 !! 5%nat = Some z
    /\ x ^ 2 + y ^ 2 = 225 * (INR 1 / INR 4)
    /\ -2 <= z <= 2.
Proof.
  destruct (generate_flower_disc (fun _ => 0.5) 4 1 ltac:(lia))
    as (x & y & z & Hx & Hy & Hz & Hs & _ & _ & Hb & _).
  exists x, y, z. split; [exact Hx|]. split; [exact Hy|].
  split; [exact Hz|]. split; [exact Hs | exact Hb].
Defined.

(** * Further properties of the animation step *)

(** X8.  Whatever the live and target values, the jitter of one frame moves
    point [i] away from its eased position by a vector of length exactly
    0.02 in the x-y plane and leaves z at the eased value; a point that sits
    on its target is therefore displaced by exactly 0.02 each frame. *)
Theorem step_jitter_norm n target time positions i :
  length positions = (n * 3)%nat ->
  (i < n)%nat ->
  let L c := positions !!! (i * 3 + c)%nat in
  let T c := target !!! (i * 3 + c)%nat in
  let L' c := morph n target time positions !!! (i * 3 + c)%nat in
  (L' 0%nat - lerp (L 0%nat) (T 0%nat)) ^ 2
  + (L' 1%nat - lerp (L 1%nat) (T 1%nat)) ^ 2 = 0.02 ^ 2
  /\ L' 2%nat = lerp (L 2%nat) (T 2%nat)
  /\ (L 0%nat = T 0%nat -> L 1%nat = T 1%nat -> L 2%nat = T 2%nat ->
      sqrt ((L' 0%nat - T 0%nat) ^ 2 + (L' 1%nat - T 1%nat) ^ 2
            + (L' 2%nat - T 2%nat) ^ 2) = 0.02).
Proof.
  intros Hlen Hi L T L'.
  destruct (morph_at n target time positions i Hi Hlen) as (Hx & Hy & Hz).
  fold (L 0%nat) (L 1%nat) (L 2%nat) (T 0%nat) (T 1%nat) (T 2%nat)
       (L' 0%nat) (L' 1%nat) (L' 2%nat) in Hx, Hy, Hz.
  pose proof (sin2_cos2 (time + INR i)) as H2. unfold Rsqr in H2.
  assert (Hn : (L' 0%nat - lerp (L 0%nat) (T 0%nat)) ^ 2
               + (L' 1%nat - lerp (L 1%nat) (T 1%nat)) ^ 2 = 0.02 ^ 2).
  { rewrite Hx, Hy.
    replace ((lerp (L 0%nat) (T 0%nat) + sin (time + INR i) * 0.02
              - lerp (L 0%nat) (T 0%nat)) ^ 2
             + (lerp (L 1%nat) (T 1%nat) + cos (time + INR i) * 0.02
                - lerp (L 1%nat) (T 1%nat)) ^ 2)
      with (0.02 ^ 2 * (sin (time + INR i) * sin (time + INR i)
                        + cos (time + INR i) * cos (time + INR i))) by ring.
    rewrite H2. ring. }
  split; [exact Hn|]. split; [exact Hz|].
  intros E0 E1 E2.
  assert (Hl : forall c, L c = T c -> lerp (L c) (T c) = T c)
    by (intros c Hc; unfold lerp; rewrite Hc; ring).
  rewrite Hz, !Hl in * by done.
  replace ((L' 0%nat - T 0%nat) ^ 2 + (L' 1%nat - T 1%nat) ^ 2
           + (T 2%nat - T 2%nat) ^ 2) with (0.02 ^ 2) by (rewrite <- Hn; ring).
  apply sqrt_pow2. lra.
Qed.

(** X8 for one point resting on its target [(10, 0, 0)]. *)
Lemma step_jitter_norm_witness :
  sqrt ((morph 1 [10; 0; 0] 0 [10; 0; 0] !!! 0%nat - 10) ^ 2
        + (morph 1 [10; 0; 0] 0 [10; 0; 0] !!! 1%nat - 0) ^ 2
        + (morph 1 [10; 0; 0] 0 [10; 0; 0] !!! 2%nat - 0) ^ 2) = 0.02.
Proof.
  destruct (step_jitter_norm 1 [10; 0; 0] 0 [10; 0; 0] 0 eq_refl
              (Nat.lt_0_succ 0)) as (_ & _ & H).
  exact (H eq_refl eq_refl eq_refl).
Defined.

(** The live buffer after a run of frames on a mounted object. *)
Lemma run_frames_positions n target g p times :
  exists p',
    pointsRef (App.run n (mkScene (Some p) target g) (App.Frame <$> times))
    = Some p'
    /\ position_array p'
       = foldl (fun l t => morph n target t l) (position_array p) times.
Proof.
  unfold App.run. induction times as [|t times IH] using rev_ind.
  - exists p. split; reflexivity.
  - destruct IH as (p1 & H1 & Hpos).
    destruct (run_frames n target g p times) as (p2 & H2 & Ht & Hg & _).
    unfold App.run in H2. rewrite H1 in H2. injection H2 as <-.
    rewrite fmap_app, !foldl_app. cbn [fmap list_fmap foldl App.handle].
    unfold App.run in Ht, Hg.
    set (s1 := foldl _ _ _) in *.
    unfold useFrame. rewrite H1. cbn [snd pointsRef].
    eexists. split; [reflexivity|].
    cbn [animate transform position_array]. rewrite Ht, Hpos. reflexivity.
Qed.

Lemma length_morph_frames n target times positions :
  length (foldl (fun l t => morph n target t l) positions times)
  = length positions.
Proof.
  induction times as [|t times IH] using rev_ind; [reflexivity|].
  rewrite foldl_app. cbn [foldl]. rewrite length_morph. exact IH.
Qed.

Lemma Rabs_le_inv a b : Rabs a <= b -> - b <= a <= b.
Proof. unfold Rabs. destruct (Rcase_abs a); lra. Qed.

(** The gaps of point [i] after a run of frames at arbitrary times. *)
Lemma morph_frames_gaps n target times positions i :
  length positions = (n * 3)%nat -> (i < n)%nat ->
  let gap c l := target !!! (i * 3 + c)%nat - l !!! (i * 3 + c)%nat in
  let after := foldl (fun l t => morph n target t l) positions times in
  let k := length times in
  Rabs (gap 0%nat after)
    <= 0.9 ^ k * Rabs (gap 0%nat positions) + 0.2 * (1 - 0.9 ^ k)
  /\ Rabs (gap 1%nat after)
    <= 0.9 ^ k * Rabs (gap 1%nat positions) + 0.2 * (1 - 0.9 ^ k)
  /\ gap 2%nat after = 0.9 ^ k * gap 2%nat positions.
Proof.
  intros Hlen Hi gap. cbv zeta.
  induction times as [|t times IH] using rev_ind.
  - cbn. repeat split; lra.
  - rewrite foldl_app, length_app, Nat.add_1_r. cbn [foldl].
    set (before := foldl _ positions times) in *.
    assert (Hlb : length before = (n * 3)%nat)
      by (unfold before; rewrite length_morph_frames; exact Hlen).
    destruct (morph_at n target t before i Hi Hlb) as (Hx & Hy & Hz).
    destruct IH as (Ix & Iy & Iz).
    pose proof (SIN_bound (t + INR i)) as Hs.
    pose proof (COS_bound (t + INR i)) as Hc.
    set (P := 0.9 ^ length times) in *.
    assert (HP : 0 < P) by (apply pow_lt; lra).
    unfold gap in *. rewrite Hx, Hy, Hz. unfold lerp.
    cbn [pow]. fold P.
    set (ax := Rabs (target !!! (i * 3 + 0)%nat
                     - positions !!! (i * 3 + 0)%nat)) in *.
    set (ay := Rabs (target !!! (i * 3 + 1)%nat
                     - positions !!! (i * 3 + 1)%nat)) in *.
    split; [|split].
    + apply Rabs_le. apply Rabs_le_inv in Ix. lra.
    + apply Rabs_le. apply Rabs_le_inv in Iy. lra.
    + lra.
Qed.

(** X9.  With the jitter as the code has it and a fixed target, after [k]
    frames at arbitrary times the x gap and the y gap of every point are at
    most [0.9^k] times the initial ones plus [0.2 * (1 - 0.9^k)]: the
    jitter never keeps a live point further than 0.2 from its target in x
    or in y beyond the geometric decay of the initial gap (exact
    arithmetic; the stores add their rounding).  The live buffer keeps its
    length. *)
Theorem frames_tracking n target g p times i :
  length (position_array p) = (n * 3)%nat ->
  length target = (n * 3)%nat ->
  (i < n)%nat ->
  exists p',
    pointsRef (App.run n (mkScene (Some p) target g) (App.Frame <$> times))
    = Some p'
    /\ length (position_array p') = (n * 3)%nat
    /\ let gap c q :=
         target !!! (i * 3 + c)%nat - position_array q !!! (i * 3 + c)%nat in
       let k := length times in
       Rabs (gap 0%nat p')
         <= 0.9 ^ k * Rabs (gap 0%nat p) + 0.2 * (1 - 0.9 ^ k)
       /\ Rabs (gap 1%nat p')
         <= 0.9 ^ k * Rabs (gap 1%nat p) + 0.2 * (1 - 0.9 ^ k).
Proof.
  intros Hlen _ Hi.
  destruct (run_frames_positions n target g p times) as (p' & Hp & Hpos).
  exists p'. split; [exact Hp|].
  split; [rewrite Hpos, length_morph_frames; exact Hlen|].
  cbv beta zeta. rewrite Hpos.
  destruct (morph_frames_gaps n target times (position_array p) i Hlen Hi)
    as (Hx & Hy & _).
  split; [exact Hx | exact Hy].
Qed.

(** X9 for one point starting at the origin with target [(10, 0, 4)] and
    two frames. *)
Lemma frames_tracking_witness :
  exists p',
    pointsRef (App.run 1
                 (mkScene (pointsRef scenario_scene) [10; 0; 4]
                    (mkGesture 0 0 false))
                 (App.Frame <$> [0; 1]))
    = Some p'
    /\ Rabs (10 - position_array p' !!! 0%nat)
       <= 0.9 ^ 2 * Rabs (10 - 0) + 0.2 * (1 - 0.9 ^ 2).
Proof.
  destruct (frames_tracking 1 [10; 0; 4] (mkGesture 0 0 false)
              {| position_array := [0; 0; 0];
                 position_needsUpdate := false;
                 obj_scale := mkVector3 1 1 1;
                 obj_rotation := mkEuler 0 0 0 |} [0; 1] 0
              eq_refl eq_refl (Nat.lt_0_succ 0))
    as (p' & Hp & _ & Hx & _).
  exists p'. split; [exact Hp | exact Hx].
Defined.

(** X10.  Over a run of [k >= 1] frames with one and the same gesture the
    scale is not cumulative, it is [1 + 2.5 * expansion] after every frame,
    while the rotation is: y has advanced by [k * (0.002 + 0.05 * rotation)]
    and z by [k * 0.001].  For [0 <= expansion <= 1] the scale stays in
    [1, 3.5]; the spin about y is forward exactly when [rotation > -0.04]. *)
Theorem frames_fixed_gesture n target p e r d t times :
  exists p',
    pointsRef (App.run n (mkScene (Some p) target (mkGesture e r d))
                 (App.Frame <$> t :: times))
    = Some p'
    /\ obj_scale p' = mkVector3 (1 + e * 2.5) (1 + e * 2.5) (1 + e * 2.5)
    /\ e_y (obj_rotation p')
       = e_y (obj_rotation p) + INR (S (length times)) * (0.002 + r * 0.05)
    /\ e_z (obj_rotation p')
       = e_z (obj_rotation p) + INR (S (length times)) * 0.001
    /\ (0 <= e <= 1 -> 1 <= v_x (obj_scale p') <= 3.5)
    /\ (e_y (obj_rotation p) < e_y (obj_rotation p') <-> -0.04 < r).
Proof.
  destruct (run_frames n target (mkGesture e r d) p (t :: times))
    as (p' & Hp & _ & _ & Hs & Hy & Hz).
  cbn [expansion rotation length] in Hs, Hy, Hz.
  exists p'. split; [exact Hp|].
  split; [apply Hs; done|]. split; [exact Hy|]. split; [exact Hz|].
  split.
  - intros He. rewrite Hs by done. cbn [v_x]. lra.
  - rewrite Hy.
    assert (Hk : 0 < INR (S (length times))) by (apply lt_0_INR; lia).
    split; intros H; nra.
Qed.

(** X10 for three frames with expansion 1 and rotation -1. *)
Lemma frames_fixed_gesture_witness :
  exists p',
    pointsRef (App.run 1
                 (mkScene (pointsRef scenario_scene) [10; 0; 0]
                    (mkGesture 1 (-1) true))
                 (App.Frame <$> [0; 1; 2]))
    = Some p'
    /\ 1 <= v_x (obj_scale p') <= 3.5
    /\ e_y (obj_rotation p') = 0 + INR 3 * (0.002 + -1 * 0.05).
Proof.
  destruct (frames_fixed_gesture 1 [10; 0; 0]
              {| position_array := [0; 0; 0];
                 position_needsUpdate := false;
                 obj_scale := mkVector3 1 1 1;
                 obj_rotation := mkEuler 0 0 0 |} 1 (-1) true 0 [1; 2])
    as (p' & Hp & _ & Hy & _ & Hs & _).
  exists p'. split; [exact Hp|]. split; [apply Hs; lra | exact Hy].
Defined.

Lemma run_reports n s gs g :
  App.run n s (App.GestureReport <$> gs ++ [g])
  = {| pointsRef := pointsRef s;
       targetPositions := targetPositions s;
       gesture := g |}.
Proof.
  unfold App.run. revert s. induction gs as [|g0 gs IH]; intros s.
  - reflexivity.
  - cbn [app fmap list_fmap foldl]. rewrite IH. reflexivity.
Qed.

(** X11.  Gesture reports only replace the gesture the next frames read:
    after any burst of reports the scene is the old one with the last
    reported gesture (live buffer, target and transform untouched, earlier
    reports of the burst forgotten), and the frame that follows scales and
    spins by that last report alone. *)
Theorem reports_latest_wins n s gs e r d es :
  App.run n s ((App.GestureReport <$> gs ++ [mkGesture e r d]) ++ es)
  = App.run n {| pointsRef := pointsRef s;
                 targetPositions := targetPositions s;
                 gesture := mkGesture e r d |} es
  /\ forall p time,
       pointsRef s = Some p ->
       exists p',
         pointsRef (App.run n s
                      ((App.GestureReport <$> gs ++ [mkGesture e r d])
                       ++ [App.Frame time]))
         = Some p'
         /\ obj_scale p' = mkVector3 (1 + e * 2.5) (1 + e * 2.5) (1 + e * 2.5)
         /\ e_y (obj_rotation p')
            = e_y (obj_rotation p) + (0.002 + r * 0.05).
Proof.
  assert (Hrun : forall es',
    App.run n s ((App.GestureReport <$> gs ++ [mkGesture e r d]) ++ es')
    = App.run n {| pointsRef := pointsRef s;
                   targetPositions := targetPositions s;
                   gesture := mkGesture e r d |} es').
  { intros es'. unfold App.run at 1. rewrite foldl_app.
    fold (App.run n s (App.GestureReport <$> gs ++ [mkGesture e r d])).
    rewrite run_reports. reflexivity. }
  split; [apply Hrun|].
  intros p time Hp. rewrite Hrun.
  unfold App.run. cbn [foldl App.handle]. unfold useFrame.
  cbn [pointsRef targetPositions gesture]. rewrite Hp. cbn [snd pointsRef].
  eexists. split; [reflexivity|]. split; reflexivity.
Qed.

(** X11 for two reports followed by a frame on the scenario's scene. *)
Lemma reports_latest_wins_witness :
  exists p',
    pointsRef (App.run 1 scenario_scene
                 ((App.GestureReport <$> [mkGesture 0.2 0 true]
                   ++ [mkGesture 1 0.5 true]) ++ [App.Frame 0]))
    = Some p'
    /\ obj_scale p' = mkVector3 (1 + 1 * 2.5) (1 + 1 * 2.5) (1 + 1 * 2.5).
Proof.
  destruct (proj2 (reports_latest_wins 1 scenario_scene
                     [mkGesture 0.2 0 true] 1 0.5 true [])
              {| position_array := [0; 0; 0];
                 position_needsUpdate := false;
                 obj_scale := mkVector3 1 1 1;
                 obj_rotation := mkEuler 0 0 0 |} 0 eq_refl)
    as (p' & Hp & Hs & _).
  exists p'. split; [exact Hp | exact Hs].
Defined.

(** * The component between frames *)

Lemma typed_array_set_same_length (target source : list R) :
  length source = length target ->
  Component.typed_array_set target source = Some source.
Proof.
  intros Hl. unfold Component.typed_array_set.
  destruct (decide (length source <= length target)%nat) as [_|Hn]; [|lia].
  rewrite Hl, drop_all, app_nil_r. reflexivity.
Qed.

Lemma component_step_ok n st e :
  buffers_ok n (Component.scene st) ->
  exists st',
    Component.step n st e = Some st'
    /\ buffers_ok n (Component.scene st')
    /\ (is_Some (pointsRef (Component.scene st'))
        <-> is_Some (pointsRef (Component.scene st))).
Proof.
  intros [Ht Hp]. destruct e as [time|g|type random]; cbn [Component.step].
  - eexists. split; [reflexivity|]. cbn [Component.scene App.handle].
    unfold useFrame.
    destruct (pointsRef (Component.scene st)) as [p|] eqn:Href;
      cbn [snd pointsRef targetPositions].
    + split; [|done]. split; [exact Ht|].
      intros p' [= <-]. cbn [animate transform position_array].
      rewrite length_morph. by apply Hp.
    + rewrite Href. split; [|done]. split; [exact Ht|]. intros p' H.
      rewrite Href in H. done.
  - eexists. split; [reflexivity|]. cbn. split; [|done]. by split.
  - destruct (String.eqb type (Component.template st)).
    + eexists. split; [reflexivity|]. split; [|done]. by split.
    + rewrite typed_array_set_same_length
        by (rewrite length_generatePositions, Ht; reflexivity).
      eexists. split; [reflexivity|]. cbn. split; [|done].
      split; [apply length_generatePositions | exact Hp].
Qed.

(** X12.  The morph invariant: once the live buffer (when mounted) and the
    target buffer both have [3 * n] numbers, every sequence of frames,
    gesture renders and template renders runs through, [set] never throws,
    and both buffers still have [3 * n] numbers afterwards; no event mounts
    or unmounts the object. *)
Theorem component_buffers n st es :
  length (targetPositions (Component.scene st)) = (n * 3)%nat ->
  (forall p, pointsRef (Component.scene st) = Some p ->
             length (position_array p) = (n * 3)%nat) ->
  exists st',
    Component.run n st es = Some st'
    /\ length (targetPositions (Component.scene st')) = (n * 3)%nat
    /\ (forall p, pointsRef (Component.scene st') = Some p ->
                  length (position_array p) = (n * 3)%nat)
    /\ (is_Some (pointsRef (Component.scene st'))
        <-> is_Some (pointsRef (Component.scene st))).
Proof.
  intros Ht Hp. assert (Hok : buffers_ok n (Component.scene st)) by done.
  clear Ht Hp. revert st Hok.
  induction es as [|e es IH]; intros st Hok.
  - exists st. destruct Hok. done.
  - destruct (component_step_ok n st e Hok) as (st1 & Hs & Hok1 & Hm1).
    destruct (IH st1 Hok1) as (st' & Hr & Ht' & Hp' & Hm').
    exists st'. cbn [Component.run]. rewrite Hs.
    split; [exact Hr|]. split; [exact Ht'|]. split; [exact Hp'|].
    rewrite Hm'. exact Hm1.
Qed.

(** X12 on a one-point scene: a frame, a switch to FLOWER, a gesture and
    another frame. *)
Lemma component_buffers_witness :
  exists st',
    Component.run 1 (Component.mkState scenario_scene "BUDDHA")
      [Component.Frame 0; Component.Template "FLOWER" (fun _ => 0.5);
       Component.Gesture (mkGesture 1 0 true); Component.Frame 1]
    = Some st'
    /\ length (targetPositions (Component.scene st')) = 3%nat.
Proof.
  destruct (component_buffers 1 (Component.mkState scenario_scene "BUDDHA")
              [Component.Frame 0; Component.Template "FLOWER" (fun _ => 0.5);
               Component.Gesture (mkGesture 1 0 true); Component.Frame 1]
              eq_refl
              (fun p H => f_equal (fun o => match o with
                                          | Some q => length (position_array q)
                                          | None => 3%nat
                                          end) (eq_sym H)))
    as (st' & Hr & Ht & _).
  exists st'. split; [exact Hr | exact Ht].
Defined.

(** X13.  A render with a different template replaces the target buffer
    wholesale by the newly generated shape and touches nothing else: the
    live buffer, the transform and the gesture are as before, so the cloud
    does not jump; the next frame then moves each live point a tenth of the
    way towards the new shape (plus jitter).  A render with the same
    template regenerates nothing. *)
Theorem template_switch n st type random p :
  length (targetPositions (Component.scene st)) = (n * 3)%nat ->
  pointsRef (Component.scene st) = Some p ->
  length (position_array p) = (n * 3)%nat ->
  Component.step n st (Component.Template (Component.template st) random)
  = Some st
  /\ (type <> Component.template st ->
      let G := generatePositions random type n in
      Component.step n st (Component.Template type random)
      = Some {| Component.scene :=
                  {| pointsRef := Some p;
                     targetPositions := G;
                     gesture := gesture (Component.scene st) |};
                Component.template := type |}
      /\ forall time i, (i < n)%nat ->
           exists st' p',
             Component.run n st
               [Component.Template type random; Component.Frame time]
             = Some st'
             /\ pointsRef (Component.scene st') = Some p'
             /\ let L c := position_array p !!! (i * 3 + c)%nat in
                let L' c := position_array p' !!! (i * 3 + c)%nat in
                L' 0%nat = L 0%nat + (G !!! (i * 3 + 0)%nat - L 0%nat) * 0.1
                           + sin (time + INR i) * 0.02
                /\ L' 1%nat = L 1%nat + (G !!! (i * 3 + 1)%nat - L 1%nat) * 0.1
                              + cos (time + INR i) * 0.02
                /\ L' 2%nat = L 2%nat + (G !!! (i * 3 + 2)%nat - L 2%nat) * 0.1).
Proof.
  intros Ht Hp Hlen. split.
  - cbn [Component.step]. rewrite String.eqb_refl. reflexivity.
  - intros Hne G.
    assert (Hstep : Component.step n st (Component.Template type random)
            = Some {| Component.scene :=
                        {| pointsRef := Some p;
                           targetPositions := G;
                           gesture := gesture (Component.scene st) |};
                      Component.template := type |}).
    { cbn [Component.step].
      apply String.eqb_neq in Hne. rewrite Hne.
      rewrite typed_array_set_same_length
        by (rewrite length_generatePositions, Ht; reflexivity).
      rewrite Hp. reflexivity. }
    split; [exact Hstep|].
    intros time i Hi. cbn [Component.run]. rewrite Hstep.
    cbn [Component.step Component.scene App.handle]. unfold useFrame.
    cbn [pointsRef targetPositions gesture snd].
    eexists _, _. split; [reflexivity|].
    cbn [Component.scene pointsRef]. split; [reflexivity|].
    cbn [animate transform position_array].
    exact (morph_at n G time (position_array p) i Hi Hlen).
Qed.

(** X13 on the scenario's scene: switching from BUDDHA to FLOWER. *)
Lemma template_switch_witness :
  Component.step 1 (Component.mkState scenario_scene "BUDDHA")
    (Component.Template "FLOWER" (fun _ => 0.5))
  = Some {| Component.scene :=
              {| pointsRef := pointsRef scenario_scene;
                 targetPositions := generatePositions (fun _ => 0.5) "FLOWER" 1;
                 gesture := mkGesture 0 0 false |};
            Component.template := "FLOWER" |}.
Proof.
  refine (proj1 (proj2 (template_switch 1
            (Component.mkState scenario_scene "BUDDHA") "FLOWER"
            (fun _ => 0.5) _ eq_refl eq_refl eq_refl) _)).
  intros H. discriminate H.
Defined.

(** * The application's controls *)

Lemma camera_off_step s e : camera_off s -> camera_off (UI.handle s e).
Proof.
  intros (Hc & Hg & Hgest & Ht).
  destruct e as [k|c|b|granted|g]; cbn [UI.handle].
  - destruct (UI.TEMPLATES !! k) as [[type label]|] eqn:Hk; [|done].
    repeat split; try done. exists label.
    apply list_elem_of_lookup. exists k. exact Hk.
  - done.
  - done.
  - rewrite Hc. unfold UI.startCamera, UI.videoRef_current. rewrite Hc.
    destruct granted; done.
  - rewrite Hg. done.
Qed.

(** X14.  From the initial state of [App] no sequence of clicks starts
    gesture control: the video element that [startCamera] requires is
    rendered only once [isCameraActive] is already true, so even when the
    camera permission is granted [isCameraActive] stays false, no gesture
    service is ever created, and the gesture state keeps its initial value
    [{expansion: 0, rotation: 0, isDetected: false}]; the template is
    always one of the five entries of [TEMPLATES]. *)
Theorem camera_never_starts es :
  let s := UI.run UI.initial es in
  UI.isCameraActive s = false
  /\ UI.geminiRef s = false
  /\ App.app_gesture (UI.app s) = mkGesture 0 0 false
  /\ App.template (UI.app s) ∈
       ["HEART"; "FLOWER"; "SATURN"; "BUDDHA"; "FIREWORKS"]%string.
Proof.
  intros s.
  assert (Hinv : camera_off s).
  { subst s. unfold UI.run.
    assert (H0 : camera_off UI.initial).
    { repeat split. exists "Zen"%string.
      apply list_elem_of_lookup. exists 3%nat. reflexivity. }
    revert H0. generalize UI.initial.
    induction es as [|e es IH]; intros s0 H0; [exact H0|].
    cbn [foldl]. apply IH. by apply camera_off_step. }
  destruct Hinv as (Hc & Hg & Hgest & label & Ht).
  split; [exact Hc|]. split; [exact Hg|]. split; [exact Hgest|].
  unfold UI.TEMPLATES in Ht.
  repeat (apply elem_of_cons in Ht as [Ht|Ht];
          [injection Ht as -> _; rewrite !elem_of_cons; auto 10|]).
  by apply elem_of_nil in Ht.
Qed.

(** * The gesture service *)

Module GeminiServiceFacts.
Import GeminiService.

Lemma tool_calls_from acc calls :
  foldl tool_call acc calls
  = (fst acc
       ++ map fc_args
            (List.filter
               (fun fc => String.eqb (fc_name fc) "updateGesture") calls),
     snd acc
       ++ map (fun fc => mkResponse (fc_id fc) "updateGesture" "ok")
            (List.filter
               (fun fc => String.eqb (fc_name fc) "updateGesture") calls)).
Proof.
  revert acc. induction calls as [|fc calls IH]; intros acc.
  - cbn. rewrite !app_nil_r. by destruct acc.
  - cbn [foldl List.filter]. rewrite IH. unfold tool_call.
    destruct (String.eqb (fc_name fc) "updateGesture") eqn:Hn.
    + apply String.eqb_eq in Hn. rewrite Hn. cbn [fst snd map].
      rewrite <- !app_assoc. reflexivity.
    + reflexivity.
Qed.

Lemma setGesture_last a gs :
  App.app_gesture (foldl (fun a g => App.setGesture g a) a gs)
  = default (App.app_gesture a) (last gs).
Proof.
  induction gs as [|g gs IH] using rev_ind; [reflexivity|].
  rewrite foldl_app, last_snoc. reflexivity.
Qed.

Lemma onmessage_calls atob now msg st :
  gestures (onmessage atob now msg st)
  = fst (match toolCall msg with
         | Some calls => tool_calls calls
         | None => ([], [])
         end)
  /\ responses (onmessage atob now msg st)
     = snd (match toolCall msg with
            | Some calls => tool_calls calls
            | None => ([], [])
            end).
Proof.
  unfold onmessage.
  destruct (audio msg) as [b64|]; [|done].
  destruct (String.eqb b64 ""); [done|].
  destruct (decode atob b64) as [bytes|]; [|done].
  destruct (decodeAudioData bytes 24000 1); done.
Qed.

(** Writing slot [i] at step [i] of a loop over [0 .. n-1]. *)
Lemma fill_lookup {A} `{!Inhabited A} (g : nat -> A -> A) (l : list A) n i :
  (n <= length l)%nat -> (i < n)%nat ->
  foldl (fun l i => <[i := g i (l !!! i)]> l) l (seq 0 n) !! i
  = Some (g i (l !!! i))
  /\ length (foldl (fun l i => <[i := g i (l !!! i)]> l) l (seq 0 n))
     = length l.
Proof.
  set (f := fun (l : list A) i => <[i := g i (l !!! i)]> l).
  assert (Hlen : forall m, length (foldl f l (seq 0 m)) = length l).
  { induction m as [|m IH]; [reflexivity|].
    rewrite seq_S, foldl_app. cbn [foldl]. unfold f at 1.
    rewrite length_insert. exact IH. }
  assert (Hkeep : forall m k, (m <= k)%nat ->
            foldl f l (seq 0 m) !! k = l !! k).
  { induction m as [|m IH]; intros k Hk; [reflexivity|].
    rewrite seq_S, foldl_app. cbn [foldl]. unfold f at 1.
    rewrite list_lookup_insert_ne by lia. apply IH. lia. }
  intros Hn Hi. split; [|apply Hlen].
  induction n as [|n IH]; [lia|].
  rewrite seq_S, foldl_app. cbn [foldl Nat.add]. unfold f at 1.
  destruct (decide (i = n)) as [->|Hne].
  - rewrite list_lookup_insert_eq by (rewrite Hlen; lia).
    f_equal. f_equal. rewrite !list_lookup_total_alt, Hkeep by lia.
    reflexivity.
  - rewrite list_lookup_insert_ne by lia. apply IH; lia.
Qed.

Lemma length_int16_elements buffer :
  length (int16_elements buffer) = (length buffer / 2)%nat.
Proof.
  assert (H : forall n buffer, (length buffer <= n)%nat ->
            length (int16_elements buffer) = (length buffer / 2)%nat).
  { clear buffer. induction n as [|n IH]; intros buffer Hn.
    - destruct buffer; [reflexivity | cbn in Hn; lia].
    - destruct buffer as [|lo [|hi rest]]; [reflexivity..|].
      cbn [int16_elements length] in *. rewrite IH by lia.
      change (S (S (length rest))) with (1 * 2 + length rest)%nat.
      rewrite Nat.div_add_l by lia. lia. }
  by apply (H (length buffer)).
Qed.

Lemma int16_elements_lookup buffer k :
  (2 * k + 1 < length buffer)%nat ->
  exists lo hi,
    buffer !! (2 * k)%nat = Some lo
    /\ buffer !! (2 * k + 1)%nat = Some hi
    /\ int16_elements buffer !! k = Some (int16 lo hi).
Proof.
  revert buffer. induction k as [|k IH]; intros buffer Hk.
  - destruct buffer as [|lo [|hi rest]]; cbn in Hk; [lia..|].
    exists lo, hi. done.
  - destruct buffer as [|lo [|hi rest]]; cbn in Hk; [lia..|].
    destruct (IH rest ltac:(lia)) as (lo' & hi' & H1 & H2 & H3).
    exists lo', hi'.
    replace (2 * S k)%nat with (S (S (2 * k))) by lia.
    replace (2 * S k + 1)%nat with (S (S (2 * k + 1))) by lia.
    done.
Qed.

Lemma int16_range lo hi : (-32768 <= int16 lo hi <= 32767)%Z.
Proof.
  unfold int16.
  pose proof (Byte.to_N_bounded lo). pose proof (Byte.to_N_bounded hi).
  destruct (Z.ltb_spec (Z.of_N (Byte.to_N lo)
                        + 256 * Z.of_N (Byte.to_N hi)) 32768); lia.
Qed.

End GeminiServiceFacts.

Import GeminiService GeminiServiceFacts.

(** X15.  For a message with tool calls, [onmessage] hands to
    [onGestureUpdate] the arguments of exactly the calls named
    "updateGesture", in order, and queues exactly one response
    [{result: 'ok'}] with the call's id for each of them; calls with any
    other name get neither.  This holds whatever the audio part of the
    message does, and with [App]'s callback the gesture state ends as the
    arguments of the last such call (unchanged if there is none). *)
Theorem tool_calls_delivered atob now st calls aud intr a :
  let out := onmessage atob now (mkMessage (Some calls) aud intr) st in
  let updates :=
    List.filter (fun fc => String.eqb (fc_name fc) "updateGesture") calls in
  gestures out = map fc_args updates
  /\ responses out
     = map (fun fc => mkResponse (fc_id fc) "updateGesture" "ok") updates
  /\ App.app_gesture (foldl (fun a g => App.setGesture g a) a (gestures out))
     = default (App.app_gesture a) (last (map fc_args updates)).
Proof.
  intros out updates.
  destruct (onmessage_calls atob now (mkMessage (Some calls) aud intr) st)
    as [Hg Hr].
  fold out in Hg, Hr. cbn [toolCall] in Hg, Hr.
  unfold tool_calls in Hg, Hr. rewrite tool_calls_from in Hg, Hr.
  cbn [fst snd app] in Hg, Hr. fold updates in Hg, Hr.
  split; [exact Hg|]. split; [exact Hr|].
  rewrite setGesture_last, Hg. reflexivity.
Qed.

Lemma decodeAudioData_channel data rate nc c i :
  Nat.even (length data) = true ->
  (c < nc)%nat -> (i < length data / 2 / nc)%nat ->
  exists buffer lo hi,
    decodeAudioData data rate nc = Some buffer
    /\ numberOfChannels buffer = nc
    /\ buffer_length buffer = (length data / 2 / nc)%nat
    /\ sampleRate buffer = rate
    /\ length (channels buffer) = nc
    /\ length (channels buffer !!! c) = (length data / 2 / nc)%nat
    /\ data !! (2 * (i * nc + c))%nat = Some lo
    /\ data !! (2 * (i * nc + c) + 1)%nat = Some hi
    /\ (channels buffer !!! c) !! i = Some (IZR (int16 lo hi) / 32768).
Proof.
  intros Heven Hc Hi.
  set (frames := (length data / 2 / nc)%nat) in *.
  unfold decodeAudioData, Int16Array. rewrite Heven.
  rewrite length_int16_elements. fold frames.
  unfold createBuffer.
  destruct (Nat.eqb_spec nc 0) as [->|Hnc]; [lia|].
  destruct (Nat.eqb_spec frames 0) as [Hf|Hf]; [lia|].
  cbn [orb numberOfChannels buffer_length sampleRate channels].
  set (d16 := int16_elements data).
  set (zero := replicate nc (replicate frames 0)).
  set (g := fun channel (cd : list R) =>
              fill_channel d16 nc frames channel cd).
  destruct (fill_lookup g zero nc c) as [Hch Hlen];
    [unfold zero; rewrite length_replicate; lia | exact Hc |].
  assert (Hk : (i * nc + c < length d16)%nat).
  { unfold d16. rewrite length_int16_elements.
    pose proof (Nat.div_mod_eq (length data / 2) nc) as Hd.
    fold frames in Hd. nia. }
  destruct (int16_elements_lookup data (i * nc + c)) as (lo & hi & Hlo & Hhi & Hv).
  { unfold d16 in Hk. rewrite length_int16_elements in Hk.
    pose proof (Nat.div_mod_eq (length data) 2).
    pose proof (Nat.mod_upper_bound (length data) 2). lia. }
  eexists _, lo, hi. split; [reflexivity|].
  cbn [numberOfChannels buffer_length sampleRate channels].
  split; [reflexivity|]. split; [reflexivity|]. split; [reflexivity|].
  fold d16 zero. change (foldl _ zero (seq 0 nc))
    with (foldl (fun l i => <[i := g i (l !!! i)]> l) zero (seq 0 nc)).
  split; [rewrite Hlen; unfold zero; apply length_replicate|].
  rewrite (list_lookup_total_correct _ _ _ Hch).
  assert (Hz : zero !!! c = replicate frames 0).
  { apply list_lookup_total_correct. unfold zero.
    by apply lookup_replicate_2. }
  rewrite Hz. unfold g, fill_channel.
  set (v := fun (j : nat) (_ : R) =>
              IZR (d16 !!! (j * nc + c)%nat) / 32768).
  destruct (fill_lookup v (replicate frames 0) frames i) as [Hs Hl];
    [rewrite length_replicate; lia | exact Hi |].
  rewrite length_replicate in Hl.
  split; [exact Hl|]. split; [exact Hlo|]. split; [exact Hhi|].
  etransitivity; [exact Hs|]. unfold v. f_equal. f_equal. f_equal.
  apply list_lookup_total_correct. exact Hv.
Qed.

(** X16.  [decodeAudioData] on an even number of bytes holding at least one
    frame returns a buffer of [numChannels] channels of
    [bytes / 2 / numChannels] frames each, in which sample [i] of channel
    [c] is the little-endian 16-bit integer at bytes [2 (i * numChannels +
    c)] and the next, divided by 32768: the interleaved input is split by
    channel and every sample lies in [-1, 1).  On an odd number of bytes, on
    zero channels and on less than one frame it throws. *)
Theorem decodeAudioData_samples data rate nc :
  (forall c i,
     Nat.even (length data) = true ->
     (c < nc)%nat -> (i < length data / 2 / nc)%nat ->
     exists buffer lo hi,
       decodeAudioData data rate nc = Some buffer
       /\ numberOfChannels buffer = nc
       /\ buffer_length buffer = (length data / 2 / nc)%nat
       /\ length (channels buffer) = nc
       /\ length (channels buffer !!! c) = (length data / 2 / nc)%nat
       /\ data !! (2 * (i * nc + c))%nat = Some lo
       /\ data !! (2 * (i * nc + c) + 1)%nat = Some hi
       /\ (channels buffer !!! c) !! i = Some (IZR (int16 lo hi) / 32768)
       /\ -1 <= IZR (int16 lo hi) / 32768 < 1)
  /\ (Nat.even (length data) = false -> decodeAudioData data rate nc = None)
  /\ (nc = 0%nat -> decodeAudioData data rate nc = None)
  /\ ((length data / 2 < nc)%nat -> decodeAudioData data rate nc = None).
Proof.
  split; [|split; [|split]].
  - intros c i Heven Hc Hi.
    destruct (decodeAudioData_channel data rate nc c i Heven Hc Hi)
      as (buffer & lo & hi & H1 & H2 & H3 & _ & H5 & H6 & H7 & H8 & H9).
    exists buffer, lo, hi. repeat (split; [assumption|]).
    pose proof (int16_range lo hi) as [Hlo Hhi].
    apply IZR_le in Hlo, Hhi. lra.
  - intros Hodd. unfold decodeAudioData, Int16Array. rewrite Hodd.
    reflexivity.
  - intros ->. unfold decodeAudioData.
    destruct (Int16Array data); reflexivity.
  - intros Hshort. unfold decodeAudioData.
    destruct (Int16Array data) as [d16|] eqn:Hd; [|reflexivity].
    unfold Int16Array in Hd.
    destruct (Nat.even (length data)); [|discriminate].
    injection Hd as <-. rewrite length_int16_elements.
    rewrite Nat.div_small by exact Hshort.
    unfold createBuffer. rewrite orb_true_r. reflexivity.
Qed.

(** X16 on the four bytes [00 40 00 80] as one channel: two frames, the
    first is 16384 / 32768. *)
Lemma decodeAudioData_samples_witness :
  exists buffer lo hi,
    decodeAudioData [Byte.x00; Byte.x40; Byte.x00; Byte.x80] 24000 1
    = Some buffer
    /\ buffer_length buffer = 2%nat
    /\ (channels buffer !!! 0%nat) !! 0%nat
       = Some (IZR (int16 lo hi) / 32768)
    /\ int16 lo hi = 16384%Z.
Proof.
  destruct (proj1 (decodeAudioData_samples
                     [Byte.x00; Byte.x40; Byte.x00; Byte.x80] 24000 1)
              0%nat 0%nat eq_refl (Nat.lt_0_succ 0)
              (Nat.lt_0_succ 1))
    as (buffer & lo & hi & Hb & _ & Hl & _ & _ & Hlo & Hhi & Hs & _).
  exists buffer, lo, hi. split; [exact Hb|]. split; [exact Hl|].
  split; [exact Hs|].
  injection Hlo as <-. injection Hhi as <-. reflexivity.
Defined.

(** ** Playback queue *)

Lemma ordered_snoc l s :
  ordered l ->
  Forall (fun s0 => src_start s0 + src_duration s0 <= src_start s) l ->
  ordered (l ++ [s]).
Proof.
  induction l as [|s0 l IH]; intros Ho Hf; cbn [app ordered].
  - split; [constructor | exact I].
  - destruct Ho as [Hl Ho]. apply Forall_cons in Hf as [H0 Hf].
    split; [|by apply IH].
    apply Forall_app. split; [exact Hl|]. by constructor.
Qed.

Lemma ordered_filter (P : Source -> Prop) `{!forall s, Decision (P s)} l :
  ordered l -> ordered (filter P l).
Proof.
  induction l as [|s l IH]; intros Ho; [exact I|].
  destruct Ho as [Hl Ho].
  destruct (decide (P s)) as [Hp|Hp].
  - rewrite filter_cons_True by exact Hp. split; [|by apply IH].
    apply Forall_forall. intros s' Hs'.
    apply list_elem_of_filter in Hs' as [_ Hs'].
    by apply (proj1 (Forall_forall _ _) Hl).
  - rewrite filter_cons_False by exact Hp. by apply IH.
Qed.

Lemma ordered_lookup l i j a b :
  ordered l -> (i < j)%nat -> l !! i = Some a -> l !! j = Some b ->
  src_start a + src_duration a <= src_start b.
Proof.
  revert i j. induction l as [|s l IH]; intros i j Ho Hij Ha Hb; [done|].
  destruct Ho as [Hl Ho]. destruct i as [|i].
  - cbn in Ha. injection Ha as <-. destruct j as [|j]; [lia|].
    cbn in Hb. exact (proj1 (Forall_lookup _ _) Hl j b Hb).
  - destruct j as [|j]; [lia|]. cbn in Ha, Hb.
    apply (IH i j); [exact Ho | lia | exact Ha | exact Hb].
Qed.

Lemma decodeAudioData_Some data rate nc buffer :
  decodeAudioData data rate nc = Some buffer ->
  (0 < buffer_length buffer)%nat
  /\ buffer_length buffer = (length data / 2 / nc)%nat
  /\ sampleRate buffer = rate.
Proof.
  unfold decodeAudioData, Int16Array.
  destruct (Nat.even (length data)); [|discriminate].
  rewrite length_int16_elements. unfold createBuffer.
  destruct (Nat.eqb_spec nc 0) as [|Hnc]; [discriminate|].
  destruct (Nat.eqb_spec (length data / 2 / nc) 0) as [|Hf]; [discriminate|].
  cbn [orb]. intros H. apply (inj Some) in H. subst buffer.
  cbn [buffer_length sampleRate]. split; [lia|]. split; reflexivity.
Qed.

Lemma duration_pos data buffer :
  decodeAudioData data 24000 1 = Some buffer ->
  0 < duration buffer
  /\ duration buffer = INR (length data / 2) / 24000.
Proof.
  intros Hd. apply decodeAudioData_Some in Hd as (Hpos & Hlen & Hrate).
  unfold duration. rewrite Hrate. rewrite Nat.div_1_r in Hlen.
  split.
  - apply Rdiv_lt_0_compat; [by apply (lt_INR 0) | lra].
  - rewrite Hlen. reflexivity.
Qed.

Lemma playback_ok_raise st t :
  playback_ok st -> nextStartTime st <= t ->
  playback_ok {| nextStartTime := t; sources := sources st;
                 created := created st; stopped := stopped st |}.
Proof.
  intros [Ho Hf] Ht. split; [exact Ho|]. cbn.
  eapply Forall_impl; [exact Hf|]. intros s (Hd & He & Hi).
  cbn [nextStartTime created]. repeat split; [exact Hd | lra | exact Hi].
Qed.

Lemma playback_ok_interrupt st : playback_ok (interrupt st).
Proof. split; cbn; [exact I | constructor]. Qed.

Lemma playback_ok_start st now d :
  playback_ok st -> 0 < d ->
  playback_ok
    {| nextStartTime := Rmax (nextStartTime st) now + d;
       sources := sources st
                  ++ [mkSource (created st) (Rmax (nextStartTime st) now) d];
       created := S (created st);
       stopped := stopped st |}.
Proof.
  intros [Ho Hf] Hd. pose proof (Rmax_l (nextStartTime st) now) as Hm.
  split; cbn [sources nextStartTime created].
  - apply ordered_snoc; [exact Ho|].
    eapply Forall_impl; [exact Hf|]. intros s (_ & He & _).
    cbn [src_start]. lra.
  - apply Forall_app. split.
    + eapply Forall_impl; [exact Hf|]. intros s (H1 & H2 & H3).
      cbn [nextStartTime created]. repeat split; [exact H1 | lra | lia].
    + constructor; [|constructor].
      cbn [src_start src_duration src_id].
      repeat split; [exact Hd | lra | lia].
Qed.

Lemma playback_ok_handle atob st e :
  playback_ok st -> playback_ok (handle atob st e).
Proof.
  intros Hok. destruct e as [now msg|id]; cbn [handle].
  - unfold onmessage.
    assert (Hfin : forall st', playback_ok st' ->
              playback_ok (if interrupted msg then interrupt st' else st')).
    { intros st' H'. destruct (interrupted msg);
        [apply playback_ok_interrupt | exact H']. }
    destruct (audio msg) as [b64|]; [|by apply Hfin].
    destruct (String.eqb b64 ""); [by apply Hfin|].
    destruct (decode atob b64) as [bytes|];
      [|apply playback_ok_raise; [exact Hok | apply Rmax_l]].
    destruct (decodeAudioData bytes 24000 1) as [buffer|] eqn:Hd;
      [|apply playback_ok_raise; [exact Hok | apply Rmax_l]].
    cbn [state]. apply Hfin. apply playback_ok_start; [exact Hok|].
    by apply (duration_pos bytes).
  - destruct Hok as [Ho Hf]. split; cbn [sources nextStartTime created].
    + by apply ordered_filter.
    + apply Forall_forall. intros s Hs.
      apply list_elem_of_filter in Hs as [_ Hs].
      by apply (proj1 (Forall_forall _ _) Hf).
Qed.

(** X17.  Whatever messages arrive and whatever sources end, the audio
    chunks the service keeps in [sources] never overlap: each has a positive
    duration, a chunk added later starts no earlier than every earlier one
    ends, and all of them end by [nextStartTime]. *)
Theorem playback_schedule atob es :
  let st := foldl (handle atob) initial es in
  (forall i j a b,
     (i < j)%nat -> sources st !! i = Some a -> sources st !! j = Some b ->
     src_start a + src_duration a <= src_start b)
  /\ (forall s, s ∈ sources st ->
        0 < src_duration s
        /\ src_start s + src_duration s <= nextStartTime st).
Proof.
  intros st.
  assert (Hok : playback_ok st).
  { subst st. assert (H0 : playback_ok initial)
      by (split; cbn; [exact I | constructor]).
    revert H0. generalize initial.
    induction es as [|e es IH]; intros st0 H0; [exact H0|].
    cbn [foldl]. apply IH. by apply playback_ok_handle. }
  destruct Hok as [Ho Hf]. split.
  - intros i j a b. by apply ordered_lookup.
  - intros s Hs.
    destruct (proj1 (Forall_forall _ _) Hf s Hs) as (H1 & H2 & _). done.
Qed.

(** X18.  A decodable audio chunk received at audio-clock time [now] is
    started at [max (nextStartTime, now)]: never in the past, never before
    the end of the chunk queued before it, and right at that end when that
    end is still ahead; it lasts [bytes / 2 / 24000] seconds and
    [nextStartTime] becomes its end. *)
Theorem receive_chunk atob now msg st base64 bytes buffer :
  audio msg = Some base64 ->
  base64 <> ""%string ->
  decode atob base64 = Some bytes ->
  decodeAudioData bytes 24000 1 = Some buffer ->
  interrupted msg = false ->
  let out := onmessage atob now msg st in
  let start := Rmax (nextStartTime st) now in
  rejected out = false
  /\ sources (state out)
     = sources st ++ [mkSource (created st) start (duration buffer)]
  /\ now <= start
  /\ nextStartTime st <= start
  /\ (now <= nextStartTime st -> start = nextStartTime st)
  /\ duration buffer = INR (length bytes / 2) / 24000
  /\ 0 < duration buffer
  /\ nextStartTime (state out) = start + duration buffer.
Proof.
  intros Ha Hne Hdec Hbuf Hint out start.
  apply String.eqb_neq in Hne.
  unfold out, onmessage. rewrite Ha, Hne, Hdec, Hbuf, Hint. cbn.
  destruct (duration_pos bytes buffer Hbuf) as [Hpos Hdur].
  repeat split; try done.
  - apply Rmax_r.
  - apply Rmax_l.
  - intros Hle. unfold start. by apply Rmax_left.
Qed.

(** X18 with [atob] returning four characters: a chunk of two frames
    received at time 5 on the initial state. *)
Lemma receive_chunk_witness :
  exists buffer,
    decodeAudioData
      [Byte.x61; Byte.x62; Byte.x63; Byte.x64] 24000 1 = Some buffer
    /\ nextStartTime
         (state (onmessage (fun _ => Some "abcd"%string) 5
                   (mkMessage None (Some "YWJjZA=="%string) false) initial))
       = Rmax 0 5 + duration buffer
    /\ duration buffer = INR 2 / 24000.
Proof.
  destruct (decodeAudioData_channel
              [Byte.x61; Byte.x62; Byte.x63; Byte.x64] 24000 1
              0%nat 0%nat eq_refl (Nat.lt_0_succ 0) (Nat.lt_0_succ 1))
    as (buffer & _ & _ & Hb & _).
  exists buffer. split; [exact Hb|].
  assert (Hne : "YWJjZA=="%string <> ""%string) by (intros H; discriminate H).
  destruct (receive_chunk (fun _ => Some "abcd"%string) 5
              (mkMessage None (Some "YWJjZA=="%string) false) initial
              "YWJjZA==" [Byte.x61; Byte.x62; Byte.x63; Byte.x64] buffer
              eq_refl Hne eq_refl Hb eq_refl)
    as (_ & _ & _ & _ & _ & Hd & _ & Hn).
  split; [exact Hn | exact Hd].
Defined.

Lemma length_list_ascii_of_string s :
  length (list_ascii_of_string s) = String.length s.
Proof. induction s as [|c s IH]; cbn; [reflexivity | by rewrite IH]. Qed.

Lemma decode_length atob base64 binary :
  atob base64 = Some binary ->
  exists bytes,
    decode atob base64 = Some bytes /\ length bytes = String.length binary.
Proof.
  intros Ha. unfold decode. rewrite Ha. eexists. split; [reflexivity|].
  rewrite length_map. apply length_list_ascii_of_string.
Qed.

(** X19.  A message flagged [interrupted] empties the queue, but only when
    the handler gets that far.  If the handler is not rejected, every source
    that was queued has been stopped, [sources] is empty and [nextStartTime]
    is back to 0.  If it is rejected, the queued sources keep playing and
    none is stopped: after a [TypeError] on the message ([toolCall] without
    [functionCalls], or [modelTurn] without [parts]) the playback state is
    untouched, and after an audio payload that cannot be decoded (for
    instance an odd number of bytes) [nextStartTime] has only been raised to
    the current time. *)
Theorem interrupted_message atob now m st :
  interrupted_of m = true ->
  let out := onmessage_live atob now m st in
  (rejected out = false ->
   sources (state out) = []
   /\ nextStartTime (state out) = 0
   /\ forall s, s ∈ sources st -> src_id s ∈ stopped (state out))
  /\ (rejected out = true ->
      sources (state out) = sources st
      /\ stopped (state out) = stopped st
      /\ (nextStartTime (state out) = nextStartTime st
          \/ nextStartTime (state out) = Rmax (nextStartTime st) now))
  /\ (live_toolCall m = Some None \/ audio_of m = None ->
      rejected out = true /\ state out = st)
  /\ (forall base64 binary,
        live_toolCall m <> Some None ->
        audio_of m = Some (Some base64) -> base64 <> ""%string ->
        atob base64 = Some binary ->
        Nat.even (String.length binary) = false ->
        rejected out = true
        /\ nextStartTime (state out) = Rmax (nextStartTime st) now).
Proof.
  intros Hint out.
  assert (Hstop : forall st' : State,
            (forall s, s ∈ sources st -> s ∈ sources st') ->
            forall s, s ∈ sources st -> src_id s ∈ stopped (interrupt st')).
  { intros st' Hsub s Hs. cbn [interrupt stopped].
    apply elem_of_app. right. apply list_elem_of_fmap.
    exists s. split; [reflexivity | by apply Hsub]. }
  assert (Hinner : forall calls audio,
    let o := onmessage atob now (mkMessage calls audio true) st in
    (rejected o = false ->
     sources (state o) = [] /\ nextStartTime (state o) = 0
     /\ forall s, s ∈ sources st -> src_id s ∈ stopped (state o))
    /\ (rejected o = true ->
        sources (state o) = sources st /\ stopped (state o) = stopped st
        /\ nextStartTime (state o) = Rmax (nextStartTime st) now)
    /\ (forall base64 binary,
          audio = Some base64 -> base64 <> ""%string ->
          atob base64 = Some binary ->
          Nat.even (String.length binary) = false ->
          rejected o = true)).
  { intros calls audio o. unfold o, onmessage.
    cbn [GeminiService.audio interrupted toolCall].
    destruct audio as [b64|].
    2:{ cbn. split; [intros _; repeat split; by apply Hstop|].
        split; [discriminate|]. intros b bin H. discriminate H. }
    destruct (String.eqb_spec b64 "") as [->|Hne].
    { cbn. split; [intros _; repeat split; by apply Hstop|].
      split; [discriminate|]. intros b bin [= <-] H. done. }
    destruct (decode atob b64) as [bytes|] eqn:Hdec.
    2:{ cbn. split; [discriminate|]. split; [done|]. done. }
    destruct (decodeAudioData bytes 24000 1) as [buffer|] eqn:Hbuf.
    2:{ cbn. split; [discriminate|]. split; [done|]. done. }
    cbn [state rejected]. split.
    - intros _. split; [reflexivity|]. split; [reflexivity|].
      apply Hstop. intros s Hs. cbn [sources]. apply elem_of_app. by left.
    - split; [discriminate|].
      intros b bin [= <-] _ Hatob Hodd.
      destruct (decode_length atob b64 bin Hatob) as (bytes' & Hd' & Hl).
      rewrite Hdec in Hd'. injection Hd' as <-.
      unfold decodeAudioData, Int16Array in Hbuf.
      rewrite Hl, Hodd in Hbuf. discriminate Hbuf. }
  unfold out, onmessage_live. rewrite Hint.
  destruct (live_toolCall m) as [[calls|]|] eqn:Htc.
  - destruct (audio_of m) as [audio|] eqn:Ha.
    + destruct (Hinner (Some calls) audio) as (H1 & H2 & H3).
      split; [exact H1|]. split.
      { intros Hr. destruct (H2 Hr) as (? & ? & ?). auto. }
      split; [intros [H|H]; discriminate H|].
      intros b bin _ [= ->] Hne Hatob Hodd.
      assert (Hr := H3 b bin eq_refl Hne Hatob Hodd).
      split; [exact Hr|]. by destruct (H2 Hr) as (_ & _ & ?).
    + cbn [state rejected]. split; [discriminate|].
      split; [intros _; auto|]. split; [done|].
      intros b bin _ H. discriminate H.
  - cbn [state rejected]. split; [discriminate|].
    split; [intros _; auto|]. split; [done|].
    intros b bin H. done.
  - destruct (audio_of m) as [audio|] eqn:Ha.
    + destruct (Hinner None audio) as (H1 & H2 & H3).
      split; [exact H1|]. split.
      { intros Hr. destruct (H2 Hr) as (? & ? & ?). auto. }
      split; [intros [H|H]; discriminate H|].
      intros b bin _ [= ->] Hne Hatob Hodd.
      assert (Hr := H3 b bin eq_refl Hne Hatob Hodd).
      split; [exact Hr|]. by destruct (H2 Hr) as (_ & _ & ?).
    + cbn [state rejected]. split; [discriminate|].
      split; [intros _; auto|]. split; [done|].
      intros b bin _ H. discriminate H.
Qed.

(** X19: one source is queued at time 0.5; a message flagged
    [interrupted] carries either a [modelTurn] without [parts], or three
    bytes of audio. *)
Lemma interrupted_message_witness :
  let st := {| nextStartTime := 1; sources := [mkSource 0 0 1];
               created := 1; stopped := [] |} in
  let broken :=
    mkLive None (Some (mkServerContent (Some (mkModelTurn None)) true)) in
  let odd :=
    mkLive None
      (Some (mkServerContent
               (Some (mkModelTurn (Some [mkPart (Some "YWJj"%string)])))
               true)) in
  (rejected (onmessage_live (fun _ => Some "abc"%string) 0.5 broken st) = true
   /\ state (onmessage_live (fun _ => Some "abc"%string) 0.5 broken st) = st)
  /\ (rejected (onmessage_live (fun _ => Some "abc"%string) 0.5 odd st) = true
      /\ sources (state (onmessage_live (fun _ => Some "abc"%string) 0.5 odd st))
         = [mkSource 0 0 1]).
Proof.
  intros st broken odd. split.
  - exact (proj1 (proj2 (proj2 (interrupted_message
             (fun _ => Some "abc"%string) 0.5 broken st eq_refl)))
             (or_intror eq_refl)).
  - destruct (interrupted_message (fun _ => Some "abc"%string) 0.5 odd st
                eq_refl) as (_ & Hrej & _ & Hodd).
    assert (Hr : rejected (onmessage_live (fun _ => Some "abc"%string)
                             0.5 odd st) = true).
    { apply (Hodd "YWJj"%string "abc"%string);
        [intros H; discriminate H | reflexivity | intros H; discriminate H
        | reflexivity | reflexivity]. }
    split; [exact Hr|]. exact (proj1 (Hrej Hr)).
Defined.

(** ** Frame streaming timer *)

Lemma clear_streaming_ok st : streaming_ok st -> clear st = [].
Proof.
  intros [Hnil | (id & Hid & Ht)]; unfold clear.
  - rewrite Hnil. by destruct (streamInterval st).
  - rewrite Hid, Ht. rewrite filter_cons_False by (intros H; by apply H).
    reflexivity.
Qed.

Lemma stream_streaming_ok st e :
  streaming_ok st ->
  streaming_ok (stream st e)
  /\ match e with
     | Open handle => timers (stream st e) = [handle]
     | Close | Disconnect => timers (stream st e) = []
     end.
Proof.
  intros Hok. pose proof (clear_streaming_ok st Hok) as Hc.
  destruct e as [handle| |];
    unfold streaming_ok, stream, startStreaming, stopStreaming;
    cbn [timers streamInterval]; rewrite Hc.
  - split; [|reflexivity]. right. exists handle. split; reflexivity.
  - split; [|reflexivity]. left. reflexivity.
  - split; [|reflexivity]. left. reflexivity.
Qed.

(** X20.  However often the session opens, closes or is disconnected, the
    service never has two frame-streaming timers running: the browser runs
    at most one, it is the one whose handle is in [streamInterval], it is
    the newest one right after an open, and none is left right after a
    close or a disconnect. *)
Theorem streaming_single es :
  let st := foldl stream (mkStreaming None []) es in
  (length (timers st) <= 1)%nat
  /\ (forall id, id ∈ timers st -> streamInterval st = Some id)
  /\ (forall es' handle, es = es' ++ [Open handle] -> timers st = [handle])
  /\ (forall es' e, es = es' ++ [e] -> e = Close \/ e = Disconnect ->
        timers st = []).
Proof.
  intros st.
  assert (Hall : forall es0, streaming_ok (foldl stream (mkStreaming None []) es0)).
  { induction es0 as [|e es0 IH] using rev_ind; [by left|].
    rewrite foldl_app. cbn [foldl]. by apply stream_streaming_ok. }
  pose proof (Hall es) as Hok. fold st in Hok.
  split; [|split; [|split]].
  - destruct Hok as [-> | (id & _ & ->)]; cbn; lia.
  - intros id Hid. destruct Hok as [Hnil | (id' & Hs & Ht)].
    + rewrite Hnil in Hid. by apply elem_of_nil in Hid.
    + rewrite Ht in Hid. apply list_elem_of_singleton in Hid as ->. exact Hs.
  - intros es' handle ->. subst st. rewrite foldl_app. cbn [foldl].
    exact (proj2 (stream_streaming_ok _ (Open handle) (Hall es'))).
  - intros es' e -> He. subst st. rewrite foldl_app. cbn [foldl].
    pose proof (proj2 (stream_streaming_ok _ e (Hall es'))) as H.
    destruct He as [-> | ->]; exact H.
Qed.

(** X20 on an open, a second open and a close, and on two opens. *)
Lemma streaming_single_witness :
  timers (foldl stream (mkStreaming None []) [Open 7%positive; Open 9%positive; Close])
  = []
  /\ timers (foldl stream (mkStreaming None []) [Open 7%positive; Open 9%positive])
     = [9%positive].
Proof.
  split.
  - exact (proj2 (proj2 (proj2 (streaming_single
             [Open 7%positive; Open 9%positive; Close])))
             [Open 7%positive; Open 9%positive] Close eq_refl
             (or_introl eq_refl)).
  - exact (proj1 (proj2 (proj2 (streaming_single
             [Open 7%positive; Open 9%positive])))
             [Open 7%positive] 9%positive eq_refl).
Defined.

(** X17 on two chunks of two frames each received at time 0. *)
Lemma playback_schedule_witness :
  let msg := mkMessage None (Some "YWJjZA=="%string) false in
  let st := foldl (handle (fun _ => Some "abcd"%string)) initial
              [Receive 0 msg; Receive 0 msg] in
  exists a b,
    sources st !! 0%nat = Some a
    /\ sources st !! 1%nat = Some b
    /\ src_start a + src_duration a <= src_start b.
Proof.
  intros msg st. eexists _, _.
  split; [reflexivity|]. split; [reflexivity|].
  eapply (proj1 (playback_schedule (fun _ => Some "abcd"%string)
                   [Receive 0 msg; Receive 0 msg]) 0%nat 1%nat);
    [lia | reflexivity | reflexivity].
Defined.

(** X1 for two points of an unknown template. *)
Lemma generate_length_witness :
  length (generatePositions (fun _ => 0.5) "CUBE" 2) = 6%nat
  /\ generatePositions (fun _ => 0.5) "CUBE" 2 !! 6%nat = None.
Proof.
  destruct (generate_length (fun _ => 0.5) "CUBE" 2) as (Hl & _ & Hn & _).
  split; [exact Hl|]. apply Hn. lia.
Defined.
